(** * GIoU loss: a shallow embedding of [tensorflow_addons/losses/giou_loss.py]

    The module computes, for two batches of axis-aligned boxes, the
    intersection-over-union score and its generalised variant, and the loss
    [1 - score].

    The code is embedded twice, line by line.
    - In exact arithmetic: the element type of the tensors is the type [Q]
      of rationals, and two scores are "the same" when they are the same
      number ([==]).  This is the formula the code implements; it never
      rounds, overflows or yields NaN, and it has one number type.
    - On IEEE 754 floats ([f_do_giou_calculate], [f_giou_loss]): the
      elements are [spec_float] values with the operations of the dtype of
      the tensor, as the program computes them.  Properties that hold of
      the exact formula only are shown to fail there on explicit finite
      inputs.
    In both, a rank-1 tensor is a list; a batch of shape (N, 4) is a list
    of rows, each row a box with its four coordinates; an elementwise
    operation on two rank-1 tensors is [map2], and a scalar operand is
    broadcast with [map].  The two batches are meant to have the same
    number of rows; [map2] stops at the end of the shorter one.
    [raise ValueError(...)] is the [Raise] constructor of [result]. *)

From Stdlib Require Import QArith Qminmax Lqa.
From Stdlib Require Import List String Qabs SpecFloat.
From Stdlib Require Import Setoid Morphisms.
Import ListNotations.

Local Open Scope Q_scope.

(** ** Tensors *)

(** One row of an (N, 4) tensor: [b[i, 0]], [b[i, 1]], [b[i, 2]], [b[i, 3]]. *)
Record box : Type := mkBox { c0 : Q; c1 : Q; c2 : Q; c3 : Q }.

Definition tensor : Type := list Q.
Definition boxes : Type := list box.

(** [b[:, k]]: the k-th column, selected by its projection. *)
Definition col (k : box -> Q) (b : boxes) : tensor := map k b.

(** Elementwise combination of two tensors of the same shape. *)
Fixpoint map2 {A B C : Type} (f : A -> B -> C) (l1 : list A) (l2 : list B)
  : list C :=
  match l1, l2 with
  | x :: l1', y :: l2' => f x y :: map2 f l1' l2'
  | _, _ => []
  end.

(** [tf.math.divide_no_nan] on one element: 0 when the denominator is 0. *)
Definition div_no_nan (x y : Q) : Q :=
  if Qeq_bool y 0 then 0 else x / y.

Module tf.
Definition minimum : tensor -> tensor -> tensor := map2 Qmin.
Definition maximum : tensor -> tensor -> tensor := map2 Qmax.
Definition add : tensor -> tensor -> tensor := map2 Qplus.
Definition sub : tensor -> tensor -> tensor := map2 Qminus.
Definition mul : tensor -> tensor -> tensor := map2 Qmult.
Definition divide_no_nan : tensor -> tensor -> tensor := map2 div_no_nan.
(** A scalar first operand, broadcast over the tensor. *)
Definition maximum_s (z : Q) (t : tensor) : tensor := map (Qmax z) t.
Definition sub_s (z : Q) (t : tensor) : tensor := map (Qminus z) t.
(** [tf.convert_to_tensor] and [tf.cast] leave the numbers as they are:
    exact arithmetic has one number type.  The cast to the dtype of
    [y_pred] is [f_cast], in the embedding on floats. *)
Definition convert_to_tensor (b : boxes) : boxes := b.
Definition cast (b : boxes) : boxes := b.
End tf.

(** ** Errors *)

Inductive exn : Type := ValueError (msg : string).

Inductive result (A : Type) : Type :=
| Ok (a : A)
| Raise (e : exn).
Arguments Ok {A} a.
Arguments Raise {A} e.

(** ** [do_giou_calculate], one definition per local variable *)

Definition zero : Q := 0.

Section Locals.
Variables b1 b2 : boxes.

Definition b1_ymin := tf.minimum (col c0 b1) (col c2 b1).
Definition b1_xmin := tf.minimum (col c1 b1) (col c3 b1).
Definition b1_ymax := tf.maximum (col c0 b1) (col c2 b1).
Definition b1_xmax := tf.maximum (col c1 b1) (col c3 b1).
Definition b2_ymin := tf.minimum (col c0 b2) (col c2 b2).
Definition b2_xmin := tf.minimum (col c1 b2) (col c3 b2).
Definition b2_ymax := tf.maximum (col c0 b2) (col c2 b2).
Definition b2_xmax := tf.maximum (col c1 b2) (col c3 b2).
Definition b1_width := tf.maximum_s zero (tf.sub b1_xmax b1_xmin).
Definition b1_height := tf.maximum_s zero (tf.sub b1_ymax b1_ymin).
Definition b2_width := tf.maximum_s zero (tf.sub b2_xmax b2_xmin).
Definition b2_height := tf.maximum_s zero (tf.sub b2_ymax b2_ymin).
Definition b1_area := tf.mul b1_width b1_height.
Definition b2_area := tf.mul b2_width b2_height.

Definition intersect_ymin := tf.maximum b1_ymin b2_ymin.
Definition intersect_xmin := tf.maximum b1_xmin b2_xmin.
Definition intersect_ymax := tf.minimum b1_ymax b2_ymax.
Definition intersect_xmax := tf.minimum b1_xmax b2_xmax.
Definition intersect_width :=
  tf.maximum_s zero (tf.sub intersect_xmax intersect_xmin).
Definition intersect_height :=
  tf.maximum_s zero (tf.sub intersect_ymax intersect_ymin).
Definition intersect_area := tf.mul intersect_width intersect_height.

Definition union_area := tf.sub (tf.add b1_area b2_area) intersect_area.
Definition iou := tf.divide_no_nan intersect_area union_area.

Definition enclose_ymin := tf.minimum b1_ymin b2_ymin.
Definition enclose_xmin := tf.minimum b1_xmin b2_xmin.
Definition enclose_ymax := tf.maximum b1_ymax b2_ymax.
Definition enclose_xmax := tf.maximum b1_xmax b2_xmax.
Definition enclose_width :=
  tf.maximum_s zero (tf.sub enclose_xmax enclose_xmin).
Definition enclose_height :=
  tf.maximum_s zero (tf.sub enclose_ymax enclose_ymin).
Definition enclose_area := tf.mul enclose_width enclose_height.
(** The term subtracted from [iou] in the last assignment. *)
Definition penalty :=
  tf.divide_no_nan (tf.sub enclose_area union_area) enclose_area.
Definition giou := tf.sub iou penalty.
End Locals.

Definition do_giou_calculate (b1 b2 : boxes) (mode : string) : tensor :=
  if String.eqb mode "iou" then iou b1 b2 else giou b1 b2.

(** ** [giou_loss] *)

Definition mode_error : string := "Value of mode should be 'iou' or 'giou'".

Definition giou_loss (y_true y_pred : boxes) (mode : string) : result tensor :=
  if negb (existsb (String.eqb mode) ["giou"; "iou"]%string)
  then Raise (ValueError mode_error)
  else
    let y_pred := tf.convert_to_tensor y_pred in
    let y_true := tf.cast y_true in
    let giou := do_giou_calculate y_pred y_true mode in
    Ok (tf.sub_s 1 giou).

(** The class [GIoULoss] keeps the mode; [call] passes it on.  [reduction]
    and [name] are what [__init__] hands to the base class. *)
Record GIoULoss : Type :=
  { mode : string; reduction : string; name : string }.

(** [tf.keras.losses.Reduction.AUTO], a constant of the host framework. *)
Definition Reduction_AUTO : string := "auto".

(** [__init__]: an argument left out ([None] here) takes its default.  The
    [__init__] of the base class, which receives [reduction] and [name] and
    is not in this file, is not modelled: [init] builds the instance for
    every argument. *)
Definition init (mode' reduction' name' : option string) : GIoULoss :=
  {| mode := match mode' with Some m => m | None => "giou"%string end;
     reduction :=
       match reduction' with Some r => r | None => Reduction_AUTO end;
     name := match name' with Some n => n | None => "giou_loss"%string end |}.

(** A configuration dictionary: string keys, each bound once, in insertion
    order. *)
Definition config : Type := list (string * string).

(** [d.get(k)] *)
Fixpoint dict_get (d : config) (k : string) : option string :=
  match d with
  | [] => None
  | (k', v') :: d' => if String.eqb k k' then Some v' else dict_get d' k
  end.

(** [d[k] = v]: the binding of [k] is replaced where it stands, or added at
    the end. *)
Fixpoint dict_set (d : config) (k v : string) : config :=
  match d with
  | [] => [(k, v)]
  | (k', v') :: d' =>
      if String.eqb k k' then (k', v) :: d' else (k', v') :: dict_set d' k v
  end.

(** [get_config]; [super_config] is what the base class's [get_config]
    returns for this instance. *)
Definition get_config (self : GIoULoss) (super_config : config) : config :=
  let base_config := super_config in
  dict_set base_config "mode" (mode self).

Definition call (self : GIoULoss) (y_true y_pred : boxes) : result tensor :=
  giou_loss y_true y_pred (mode self).

Definition boxes1 : boxes := [mkBox 4 3 7 5; mkBox 5 6 10 7].
Definition boxes2 : boxes := [mkBox 3 4 6 8; mkBox 14 14 15 15].

(** ** The same lines read on one row of each batch

    Every operation of [do_giou_calculate] is elementwise, so the value at
    index [i] of each local tensor is the value below for the boxes [A], [B]
    at index [i] of [b1], [b2] (lemmas [*_rows]). *)

Section Row.
Variables A B : box.

Definition row_b1_ymin := Qmin (c0 A) (c2 A).
Definition row_b1_xmin := Qmin (c1 A) (c3 A).
Definition row_b1_ymax := Qmax (c0 A) (c2 A).
Definition row_b1_xmax := Qmax (c1 A) (c3 A).
Definition row_b2_ymin := Qmin (c0 B) (c2 B).
Definition row_b2_xmin := Qmin (c1 B) (c3 B).
Definition row_b2_ymax := Qmax (c0 B) (c2 B).
Definition row_b2_xmax := Qmax (c1 B) (c3 B).
Definition row_b1_width := Qmax zero (row_b1_xmax - row_b1_xmin).
Definition row_b1_height := Qmax zero (row_b1_ymax - row_b1_ymin).
Definition row_b2_width := Qmax zero (row_b2_xmax - row_b2_xmin).
Definition row_b2_height := Qmax zero (row_b2_ymax - row_b2_ymin).
Definition row_b1_area := row_b1_width * row_b1_height.
Definition row_b2_area := row_b2_width * row_b2_height.

Definition row_intersect_ymin := Qmax row_b1_ymin row_b2_ymin.
Definition row_intersect_xmin := Qmax row_b1_xmin row_b2_xmin.
Definition row_intersect_ymax := Qmin row_b1_ymax row_b2_ymax.
Definition row_intersect_xmax := Qmin row_b1_xmax row_b2_xmax.
Definition row_intersect_width :=
  Qmax zero (row_intersect_xmax - row_intersect_xmin).
Definition row_intersect_height :=
  Qmax zero (row_intersect_ymax - row_intersect_ymin).
Definition row_intersect_area := row_intersect_width * row_intersect_height.

Definition row_union_area := row_b1_area + row_b2_area - row_intersect_area.
Definition row_iou := div_no_nan row_intersect_area row_union_area.

Definition row_enclose_ymin := Qmin row_b1_ymin row_b2_ymin.
Definition row_enclose_xmin := Qmin row_b1_xmin row_b2_xmin.
Definition row_enclose_ymax := Qmax row_b1_ymax row_b2_ymax.
Definition row_enclose_xmax := Qmax row_b1_xmax row_b2_xmax.
Definition row_enclose_width :=
  Qmax zero (row_enclose_xmax - row_enclose_xmin).
Definition row_enclose_height :=
  Qmax zero (row_enclose_ymax - row_enclose_ymin).
Definition row_enclose_area := row_enclose_width * row_enclose_height.
Definition row_penalty :=
  div_no_nan (row_enclose_area - row_union_area) row_enclose_area.
Definition row_giou := row_iou - row_penalty.
End Row.

Definition row_score (mode : string) (A B : box) : Q :=
  if String.eqb mode "iou" then row_iou A B else row_giou A B.

(** ** Vocabulary of the properties *)

(** The same box given by its two other corners:
    (c2, c3, c0, c1) for (c0, c1, c2, c3). *)
Definition swap_corners (A : box) : box := mkBox (c2 A) (c3 A) (c0 A) (c1 A).

(** A box as it was, or with its corners swapped. *)
Definition same_or_swapped (A A' : box) : Prop :=
  A' = A \/ A' = swap_corners A.

(** The two normalized boxes are apart on one axis at least: the larger
    coordinate of one is strictly below the smaller coordinate of the
    other. *)
Definition separated (A B : box) : Prop :=
  row_b1_xmax A < row_b2_xmin B \/ row_b2_xmax B < row_b1_xmin A \/
  row_b1_ymax A < row_b2_ymin B \/ row_b2_ymax B < row_b1_ymin A.

(** Both boxes moved by one map of the plane that acts on each axis by
    itself: [y |-> ky * y + ty] and [x |-> kx * x + tx]. *)
Definition affine (ky ty kx tx : Q) (A : box) : box :=
  mkBox (ky * c0 A + ty) (kx * c1 A + tx) (ky * c2 A + ty) (kx * c3 A + tx).

(** The box with its two axes exchanged. *)
Definition transpose (A : box) : box := mkBox (c1 A) (c0 A) (c3 A) (c2 A).

(** The two normalized boxes are the same rectangle. *)
Definition same_extent (A B : box) : Prop :=
  row_b1_ymin A == row_b2_ymin B /\ row_b1_xmin A == row_b2_xmin B /\
  row_b1_ymax A == row_b2_ymax B /\ row_b1_xmax A == row_b2_xmax B.

(** The two normalized boxes share a rectangle of positive width and
    height. *)
Definition overlapping (A B : box) : Prop :=
  row_intersect_xmin A B < row_intersect_xmax A B /\
  row_intersect_ymin A B < row_intersect_ymax A B.

(** The normalized box of [B] lies in the normalized box of [A]. *)
Definition inside (B A : box) : Prop :=
  row_b1_ymin A <= row_b2_ymin B /\ row_b2_ymax B <= row_b1_ymax A /\
  row_b1_xmin A <= row_b2_xmin B /\ row_b2_xmax B <= row_b1_xmax A.

(** Two tensors hold the same numbers. *)
Definition tensor_eq : tensor -> tensor -> Prop := Forall2 Qeq.

(** Two outcomes are the same error, or tensors of the same numbers. *)
Definition result_eq (r r' : result tensor) : Prop :=
  match r, r' with
  | Ok t, Ok t' => tensor_eq t t'
  | Raise e, Raise e' => e = e'
  | _, _ => False
  end.

(** ** The same code on IEEE 754 floats

    The tensors of the program hold binary floating-point numbers.  Here
    they are the [spec_float] values of the standard library, with the
    operations of IEEE 754 (round to nearest, ties to even; overflow to an
    infinity; NaN) for the format [prec], [emax] of the tensor's dtype. *)

Record dtype : Type := mkDtype { prec : Z; emax : Z }.

Definition float32 : dtype := mkDtype 24 128.
Definition float64 : dtype := mkDtype 53 1024.

(** The float of dtype [d] nearest to [m * 2 ^ e]. *)
Definition fl (d : dtype) (m e : Z) : spec_float :=
  binary_normalize (prec d) (emax d) m e false.

(** One row of an (N, 4) float tensor, and a tensor with its dtype. *)
Record fbox : Type := mkFBox { f0 : spec_float; f1 : spec_float;
                               f2 : spec_float; f3 : spec_float }.

Record ftensor2 : Type := mkFTensor2 { dtype2 : dtype; rows : list fbox }.
Record ftensor1 : Type :=
  mkFTensor1 { dtype1 : dtype; values : list spec_float }.

(** [tf.minimum] and [tf.maximum] on one element, as documented:
    [x < y ? x : y] and [x > y ? x : y].  With finite coordinates their
    operands are never NaN. *)
Definition f_min (x y : spec_float) : spec_float :=
  if SFltb x y then x else y.
Definition f_max (x y : spec_float) : spec_float :=
  if SFltb y x then x else y.

(** [tf.math.divide_no_nan] on one element: 0 when the denominator
    compares equal to 0, the IEEE quotient otherwise. *)
Definition f_div_no_nan (d : dtype) (x y : spec_float) : spec_float :=
  if SFeqb y (S754_zero false) then S754_zero false
  else SFdiv (prec d) (emax d) x y.

(** [tf.cast] of one element to dtype [d]: a finite number is rounded to
    the format of [d], and overflows to an infinity. *)
Definition f_cast1 (d : dtype) (x : spec_float) : spec_float :=
  match x with
  | S754_finite s m e => binary_round (prec d) (emax d) s m e
  | _ => x
  end.

Definition f_cast (d : dtype) (t : ftensor2) : ftensor2 :=
  mkFTensor2 d
    (map (fun r => mkFBox (f_cast1 d (f0 r)) (f_cast1 d (f1 r))
                          (f_cast1 d (f2 r)) (f_cast1 d (f3 r)))
         (rows t)).

Section FloatLocals.
Variable d : dtype.
Variables b1 b2 : list fbox.

Definition f_minimum := map2 f_min.
Definition f_maximum := map2 f_max.
Definition f_add := map2 (SFadd (prec d) (emax d)).
Definition f_sub := map2 (SFsub (prec d) (emax d)).
Definition f_mul := map2 (SFmul (prec d) (emax d)).
Definition f_divide_no_nan := map2 (f_div_no_nan d).
Definition f_maximum_s (z : spec_float) := map (f_max z).
Definition f_sub_s (z : spec_float) := map (SFsub (prec d) (emax d) z).

Definition f_zero : spec_float := S754_zero false.
Definition f_b1_ymin := f_minimum (map f0 b1) (map f2 b1).
Definition f_b1_xmin := f_minimum (map f1 b1) (map f3 b1).
Definition f_b1_ymax := f_maximum (map f0 b1) (map f2 b1).
Definition f_b1_xmax := f_maximum (map f1 b1) (map f3 b1).
Definition f_b2_ymin := f_minimum (map f0 b2) (map f2 b2).
Definition f_b2_xmin := f_minimum (map f1 b2) (map f3 b2).
Definition f_b2_ymax := f_maximum (map f0 b2) (map f2 b2).
Definition f_b2_xmax := f_maximum (map f1 b2) (map f3 b2).
Definition f_b1_width := f_maximum_s f_zero (f_sub f_b1_xmax f_b1_xmin).
Definition f_b1_height := f_maximum_s f_zero (f_sub f_b1_ymax f_b1_ymin).
Definition f_b2_width := f_maximum_s f_zero (f_sub f_b2_xmax f_b2_xmin).
Definition f_b2_height := f_maximum_s f_zero (f_sub f_b2_ymax f_b2_ymin).
Definition f_b1_area := f_mul f_b1_width f_b1_height.
Definition f_b2_area := f_mul f_b2_width f_b2_height.

Definition f_intersect_ymin := f_maximum f_b1_ymin f_b2_ymin.
Definition f_intersect_xmin := f_maximum f_b1_xmin f_b2_xmin.
Definition f_intersect_ymax := f_minimum f_b1_ymax f_b2_ymax.
Definition f_intersect_xmax := f_minimum f_b1_xmax f_b2_xmax.
Definition f_intersect_width :=
  f_maximum_s f_zero (f_sub f_intersect_xmax f_intersect_xmin).
Definition f_intersect_height :=
  f_maximum_s f_zero (f_sub f_intersect_ymax f_intersect_ymin).
Definition f_intersect_area := f_mul f_intersect_width f_intersect_height.

Definition f_union_area :=
  f_sub (f_add f_b1_area f_b2_area) f_intersect_area.
Definition f_iou := f_divide_no_nan f_intersect_area f_union_area.

Definition f_enclose_ymin := f_minimum f_b1_ymin f_b2_ymin.
Definition f_enclose_xmin := f_minimum f_b1_xmin f_b2_xmin.
Definition f_enclose_ymax := f_maximum f_b1_ymax f_b2_ymax.
Definition f_enclose_xmax := f_maximum f_b1_xmax f_b2_xmax.
Definition f_enclose_width :=
  f_maximum_s f_zero (f_sub f_enclose_xmax f_enclose_xmin).
Definition f_enclose_height :=
  f_maximum_s f_zero (f_sub f_enclose_ymax f_enclose_ymin).
Definition f_enclose_area := f_mul f_enclose_width f_enclose_height.
Definition f_penalty :=
  f_divide_no_nan (f_sub f_enclose_area f_union_area) f_enclose_area.
Definition f_giou := f_sub f_iou f_penalty.

Definition f_do_giou_calculate (mode : string) : list spec_float :=
  if String.eqb mode "iou" then f_iou else f_giou.
End FloatLocals.

(** [giou_loss] on float tensors: [y_true] is cast to the dtype of
    [y_pred], and the loss has that dtype. *)
Definition f_giou_loss (y_true y_pred : ftensor2) (mode : string)
  : result ftensor1 :=
  if negb (existsb (String.eqb mode) ["giou"; "iou"]%string)
  then Raise (ValueError mode_error)
  else
    let y_true := f_cast (dtype2 y_pred) y_true in
    let d := dtype2 y_pred in
    let giou := f_do_giou_calculate d (rows y_pred) (rows y_true) mode in
    Ok (mkFTensor1 d (f_sub_s d (SFone (prec d) (emax d)) giou)).

(** A float64 box with the coordinates [m0 * 2 ^ e0], ... *)
Definition box64 (m0 e0 m1 e1 m2 e2 m3 e3 : Z) : fbox :=
  mkFBox (fl float64 m0 e0) (fl float64 m1 e1) (fl float64 m2 e2)
         (fl float64 m3 e3).

(** A float32 box with the coordinates [m0 * 2 ^ e0], ... *)
Definition box32 (m0 e0 m1 e1 m2 e2 m3 e3 : Z) : fbox :=
  mkFBox (fl float32 m0 e0) (fl float32 m1 e1) (fl float32 m2 e2)
         (fl float32 m3 e3).

(** ** Elementwise operations, row by row *)

Lemma map2_maps {X Y : Type} (f : Q -> Q -> Q) (g : X -> Q) (h : Y -> Q)
      (l1 : list X) (l2 : list Y) :
  map2 f (map g l1) (map h l2) = map2 (fun x y => f (g x) (h y)) l1 l2.
Proof.
  revert l2. induction l1 as [|x l1 IH]; intros [|y l2]; simpl; f_equal; auto.
Qed.

Lemma map2_map2 {X Y : Type} (f : Q -> Q -> Q) (g h : X -> Y -> Q)
      (l1 : list X) (l2 : list Y) :
  map2 f (map2 g l1 l2) (map2 h l1 l2) =
  map2 (fun x y => f (g x y) (h x y)) l1 l2.
Proof.
  revert l2. induction l1 as [|x l1 IH]; intros [|y l2]; simpl; f_equal; auto.
Qed.

Lemma map_map2 {X Y : Type} (k : Q -> Q) (g : X -> Y -> Q)
      (l1 : list X) (l2 : list Y) :
  map k (map2 g l1 l2) = map2 (fun x y => k (g x y)) l1 l2.
Proof.
  revert l2. induction l1 as [|x l1 IH]; intros [|y l2]; simpl; f_equal; auto.
Qed.

Lemma map2_same {X : Type} (f : X -> X -> Q) (l : list X) :
  map2 f l l = map (fun x => f x x) l.
Proof. induction l as [|x l IH]; simpl; f_equal; auto. Qed.

Create Rewrite HintDb rows.
#[local] Hint Rewrite @map2_maps @map2_map2 @map_map2 @map2_same @map_map
  : rows.

(** Unfold the local on the left, replace the locals it is computed from by
    their row-wise form, and fuse the elementwise operations. *)
Ltac fuse :=
  unfold tf.divide_no_nan, tf.maximum_s, tf.sub_s, tf.maximum, tf.minimum,
    tf.mul, tf.sub, tf.add, col;
  autorewrite with rows; reflexivity.

Ltac by_rows :=
  intros;
  lazymatch goal with
  | |- ?f _ _ = map2 _ _ _ => unfold f
  | |- ?f _ = map _ _ => unfold f
  end; fuse.

Lemma b1_ymin_rows (b1 : boxes) : b1_ymin b1 = map row_b1_ymin b1.
Proof. by_rows. Qed.
#[local] Hint Rewrite b1_ymin_rows : rows.

Lemma b1_xmin_rows (b1 : boxes) : b1_xmin b1 = map row_b1_xmin b1.
Proof. by_rows. Qed.
#[local] Hint Rewrite b1_xmin_rows : rows.

Lemma b1_ymax_rows (b1 : boxes) : b1_ymax b1 = map row_b1_ymax b1.
Proof. by_rows. Qed.
#[local] Hint Rewrite b1_ymax_rows : rows.

Lemma b1_xmax_rows (b1 : boxes) : b1_xmax b1 = map row_b1_xmax b1.
Proof. by_rows. Qed.
#[local] Hint Rewrite b1_xmax_rows : rows.

Lemma b1_width_rows (b1 : boxes) : b1_width b1 = map row_b1_width b1.
Proof. by_rows. Qed.
#[local] Hint Rewrite b1_width_rows : rows.

Lemma b1_height_rows (b1 : boxes) : b1_height b1 = map row_b1_height b1.
Proof. by_rows. Qed.
#[local] Hint Rewrite b1_height_rows : rows.

Lemma b1_area_rows (b1 : boxes) : b1_area b1 = map row_b1_area b1.
Proof. by_rows. Qed.
#[local] Hint Rewrite b1_area_rows : rows.

(** [b2_ymin] and the like are the same tensors as [b1_ymin], of the
    other batch. *)
Lemma b2_ymin_rows (b2 : boxes) : b2_ymin b2 = map row_b2_ymin b2.
Proof. by_rows. Qed.
#[local] Hint Rewrite b2_ymin_rows : rows.

Lemma b2_xmin_rows (b2 : boxes) : b2_xmin b2 = map row_b2_xmin b2.
Proof. by_rows. Qed.
#[local] Hint Rewrite b2_xmin_rows : rows.

Lemma b2_ymax_rows (b2 : boxes) : b2_ymax b2 = map row_b2_ymax b2.
Proof. by_rows. Qed.
#[local] Hint Rewrite b2_ymax_rows : rows.

Lemma b2_xmax_rows (b2 : boxes) : b2_xmax b2 = map row_b2_xmax b2.
Proof. by_rows. Qed.
#[local] Hint Rewrite b2_xmax_rows : rows.

Lemma b2_width_rows (b2 : boxes) : b2_width b2 = map row_b2_width b2.
Proof. by_rows. Qed.
#[local] Hint Rewrite b2_width_rows : rows.

Lemma b2_height_rows (b2 : boxes) : b2_height b2 = map row_b2_height b2.
Proof. by_rows. Qed.
#[local] Hint Rewrite b2_height_rows : rows.

Lemma b2_area_rows (b2 : boxes) : b2_area b2 = map row_b2_area b2.
Proof. by_rows. Qed.
#[local] Hint Rewrite b2_area_rows : rows.

Lemma intersect_ymin_rows (b1 b2 : boxes) :
  intersect_ymin b1 b2 = map2 row_intersect_ymin b1 b2.
Proof. by_rows. Qed.
#[local] Hint Rewrite intersect_ymin_rows : rows.

Lemma intersect_xmin_rows (b1 b2 : boxes) :
  intersect_xmin b1 b2 = map2 row_intersect_xmin b1 b2.
Proof. by_rows. Qed.
#[local] Hint Rewrite intersect_xmin_rows : rows.

Lemma intersect_ymax_rows (b1 b2 : boxes) :
  intersect_ymax b1 b2 = map2 row_intersect_ymax b1 b2.
Proof. by_rows. Qed.
#[local] Hint Rewrite intersect_ymax_rows : rows.

Lemma intersect_xmax_rows (b1 b2 : boxes) :
  intersect_xmax b1 b2 = map2 row_intersect_xmax b1 b2.
Proof. by_rows. Qed.
#[local] Hint Rewrite intersect_xmax_rows : rows.

Lemma intersect_width_rows (b1 b2 : boxes) :
  intersect_width b1 b2 = map2 row_intersect_width b1 b2.
Proof. by_rows. Qed.
#[local] Hint Rewrite intersect_width_rows : rows.

Lemma intersect_height_rows (b1 b2 : boxes) :
  intersect_height b1 b2 = map2 row_intersect_height b1 b2.
Proof. by_rows. Qed.
#[local] Hint Rewrite intersect_height_rows : rows.

Lemma intersect_area_rows (b1 b2 : boxes) :
  intersect_area b1 b2 = map2 row_intersect_area b1 b2.
Proof. by_rows. Qed.
#[local] Hint Rewrite intersect_area_rows : rows.

Lemma union_area_rows (b1 b2 : boxes) :
  union_area b1 b2 = map2 row_union_area b1 b2.
Proof. by_rows. Qed.
#[local] Hint Rewrite union_area_rows : rows.

Lemma iou_rows (b1 b2 : boxes) :
  iou b1 b2 = map2 row_iou b1 b2.
Proof. by_rows. Qed.
#[local] Hint Rewrite iou_rows : rows.

Lemma enclose_ymin_rows (b1 b2 : boxes) :
  enclose_ymin b1 b2 = map2 row_enclose_ymin b1 b2.
Proof. by_rows. Qed.
#[local] Hint Rewrite enclose_ymin_rows : rows.

Lemma enclose_xmin_rows (b1 b2 : boxes) :
  enclose_xmin b1 b2 = map2 row_enclose_xmin b1 b2.
Proof. by_rows. Qed.
#[local] Hint Rewrite enclose_xmin_rows : rows.

Lemma enclose_ymax_rows (b1 b2 : boxes) :
  enclose_ymax b1 b2 = map2 row_enclose_ymax b1 b2.
Proof. by_rows. Qed.
#[local] Hint Rewrite enclose_ymax_rows : rows.

Lemma enclose_xmax_rows (b1 b2 : boxes) :
  enclose_xmax b1 b2 = map2 row_enclose_xmax b1 b2.
Proof. by_rows. Qed.
#[local] Hint Rewrite enclose_xmax_rows : rows.

Lemma enclose_width_rows (b1 b2 : boxes) :
  enclose_width b1 b2 = map2 row_enclose_width b1 b2.
Proof. by_rows. Qed.
#[local] Hint Rewrite enclose_width_rows : rows.

Lemma enclose_height_rows (b1 b2 : boxes) :
  enclose_height b1 b2 = map2 row_enclose_height b1 b2.
Proof. by_rows. Qed.
#[local] Hint Rewrite enclose_height_rows : rows.

Lemma enclose_area_rows (b1 b2 : boxes) :
  enclose_area b1 b2 = map2 row_enclose_area b1 b2.
Proof. by_rows. Qed.
#[local] Hint Rewrite enclose_area_rows : rows.

Lemma penalty_rows (b1 b2 : boxes) :
  penalty b1 b2 = map2 row_penalty b1 b2.
Proof. by_rows. Qed.
#[local] Hint Rewrite penalty_rows : rows.

Lemma giou_rows (b1 b2 : boxes) :
  giou b1 b2 = map2 row_giou b1 b2.
Proof. by_rows. Qed.
#[local] Hint Rewrite giou_rows : rows.

Lemma do_giou_calculate_rows (b1 b2 : boxes) (mode : string) :
  do_giou_calculate b1 b2 mode = map2 (row_score mode) b1 b2.
Proof.
  unfold do_giou_calculate, row_score.
  destruct (String.eqb mode "iou"); [apply iou_rows | apply giou_rows].
Qed.

(** ** Lists built with [map2] *)

Lemma Forall_map2 {X Y : Type} (P : Q -> Prop) (f : X -> Y -> Q) :
  (forall x y, P (f x y)) -> forall l1 l2, Forall P (map2 f l1 l2).
Proof.
  intros Hf l1. induction l1 as [|x l1 IH]; intros [|y l2]; cbn; auto.
Qed.

Lemma Forall2_map2 {X Y : Type} (R : Q -> Q -> Prop) (f g : X -> Y -> Q) :
  (forall x y, R (f x y) (g x y)) ->
  forall l1 l2, Forall2 R (map2 f l1 l2) (map2 g l1 l2).
Proof.
  intros Hfg l1. induction l1 as [|x l1 IH]; intros [|y l2]; cbn; auto.
Qed.

(** Index [i] of [map2 f l1 l2] is [f] of the two elements at index [i], or
    the default when one list is too short. *)
Lemma nth_map2 {X Y : Type} (l1 : list X) (l2 : list Y) (i : nat) :
  (exists x y,
     (forall (g : X -> Q) d, nth i (map g l1) d = g x) /\
     (forall (g : Y -> Q) d, nth i (map g l2) d = g y) /\
     (forall (f : X -> Y -> Q) d, nth i (map2 f l1 l2) d = f x y)) \/
  (forall (f : X -> Y -> Q) d, nth i (map2 f l1 l2) d = d).
Proof.
  revert l2 i. induction l1 as [|x l1 IH]; intros [|y l2] [|i]; cbn;
    try (right; reflexivity).
  - left. exists x, y. auto.
  - apply IH.
Qed.

Lemma nth_map2_some {X Y : Type} (l1 : list X) (l2 : list Y) (i : nat)
      (x : X) (y : Y) :
  nth_error l1 i = Some x -> nth_error l2 i = Some y ->
  forall (f : X -> Y -> Q) d, nth i (map2 f l1 l2) d = f x y.
Proof.
  revert l2 i. induction l1 as [|x1 l1 IH]; intros [|y1 l2] [|i]; cbn;
    try discriminate.
  - intros [= ->] [= ->]. reflexivity.
  - apply IH.
Qed.

(** ** Arithmetic of the guarded division *)

Lemma div_no_nan_zero_den (x y : Q) : y == 0 -> div_no_nan x y = 0.
Proof.
  intros Hy. unfold div_no_nan.
  apply Qeq_bool_iff in Hy. rewrite Hy. reflexivity.
Qed.

Lemma div_no_nan_nonzero_den (x y : Q) : ~ y == 0 -> div_no_nan x y = x / y.
Proof.
  intros Hy. unfold div_no_nan.
  destruct (Qeq_bool y 0) eqn:E; [|reflexivity].
  apply Qeq_bool_iff in E. contradiction.
Qed.

#[global] Instance div_no_nan_comp : Proper (Qeq ==> Qeq ==> Qeq) div_no_nan.
Proof.
  intros x x' Hx y y' Hy.
  destruct (Qeq_dec y 0) as [Z|NZ].
  - rewrite !div_no_nan_zero_den; [reflexivity | now rewrite <- Hy | exact Z].
  - rewrite !div_no_nan_nonzero_den; [| now rewrite <- Hy | exact NZ].
    now rewrite Hx, Hy.
Qed.

Lemma div_no_nan_zero_num (x y : Q) : x == 0 -> div_no_nan x y == 0.
Proof.
  intros Hx. rewrite Hx. unfold div_no_nan.
  destruct (Qeq_bool y 0); [reflexivity|]. unfold Qdiv. ring.
Qed.

Lemma div_no_nan_self (x : Q) : ~ x == 0 -> div_no_nan x x == 1.
Proof.
  intros Hx. rewrite div_no_nan_nonzero_den by exact Hx. now field.
Qed.

Lemma div_no_nan_range (x y : Q) :
  0 <= x -> x <= y -> 0 <= div_no_nan x y <= 1.
Proof.
  intros H0 Hxy. unfold div_no_nan.
  destruct (Qeq_bool y 0) eqn:E; [lra|].
  apply Qeq_bool_neq in E.
  assert (0 < y) by lra.
  split.
  - apply Qle_shift_div_l; [assumption | lra].
  - apply Qle_shift_div_r; [assumption | lra].
Qed.

Lemma div_no_nan_lt_1 (x y : Q) : 0 < y -> x < y -> div_no_nan x y < 1.
Proof.
  intros Hy Hxy. rewrite div_no_nan_nonzero_den by lra.
  apply Qlt_shift_div_r; [assumption | lra].
Qed.

Lemma div_no_nan_pos (x y : Q) : 0 < x -> 0 < y -> 0 < div_no_nan x y.
Proof.
  intros Hx Hy. rewrite div_no_nan_nonzero_den by lra.
  apply Qlt_shift_div_l; [assumption | lra].
Qed.

(** ** One axis: the extents of two intervals, of their intersection and of
    their hull *)

Ltac minmax_specs :=
  repeat match goal with
  | |- context [Qmax ?x ?y] =>
      generalize (Q.max_spec x y); generalize (Qmax x y); intro
  | |- context [Qmin ?x ?y] =>
      generalize (Q.min_spec x y); generalize (Qmin x y); intro
  end.

Ltac minmax_cases :=
  unfold zero in *; minmax_specs; intros;
  repeat match goal with
  | H : _ \/ _ |- _ => destruct H
  | H : _ /\ _ |- _ => destruct H
  end.

Lemma Qmin_le_Qmax (a c : Q) : Qmin a c <= Qmax a c.
Proof. minmax_cases; lra. Qed.

Section Axis.
Variables lo1 hi1 lo2 hi2 : Q.
Hypothesis ordered1 : lo1 <= hi1.
Hypothesis ordered2 : lo2 <= hi2.

Let w1 := Qmax zero (hi1 - lo1).
Let w2 := Qmax zero (hi2 - lo2).
Let wi := Qmax zero (Qmin hi1 hi2 - Qmax lo1 lo2).
Let we := Qmax zero (Qmax hi1 hi2 - Qmin lo1 lo2).

Lemma axis_extents :
  0 <= wi /\ wi <= w1 /\ wi <= w2 /\ w1 <= we /\ w2 <= we /\
  w1 + w2 - wi <= we.
Proof. subst w1 w2 wi we. minmax_cases; lra. Qed.

Lemma axis_gap : hi1 < lo2 \/ hi2 < lo1 -> wi == 0 /\ w1 + w2 < we.
Proof. subst w1 w2 wi we. intros G. minmax_cases; lra. Qed.
End Axis.

(** ** Two axes: areas *)

Section Areas.
Variables w1 w2 wi we h1 h2 hi he : Q.
Hypothesis Hw : 0 <= wi /\ wi <= w1 /\ wi <= w2 /\ w1 <= we /\ w2 <= we /\
                w1 + w2 - wi <= we.
Hypothesis Hh : 0 <= hi /\ hi <= h1 /\ hi <= h2 /\ h1 <= he /\ h2 <= he /\
                h1 + h2 - hi <= he.

Lemma areas_intersect_nonneg : 0 <= wi * hi.
Proof. apply Qmult_le_0_compat; lra. Qed.

Lemma areas_intersect_le_1 : wi * hi <= w1 * h1.
Proof.
  assert (0 <= (w1 - wi) * hi) by (apply Qmult_le_0_compat; lra).
  assert (0 <= w1 * (h1 - hi)) by (apply Qmult_le_0_compat; lra).
  lra.
Qed.

Lemma areas_intersect_le_2 : wi * hi <= w2 * h2.
Proof.
  assert (0 <= (w2 - wi) * hi) by (apply Qmult_le_0_compat; lra).
  assert (0 <= w2 * (h2 - hi)) by (apply Qmult_le_0_compat; lra).
  lra.
Qed.

(** The union fits in the hull: with [W = w1 + w2 - wi] and
    [H = h1 + h2 - hi], [W * H <= we * he] and
    [W * H - union = (w1 - wi) * (h2 - hi) + (w2 - wi) * (h1 - hi)]. *)
Lemma areas_union_le_enclose : w1 * h1 + w2 * h2 - wi * hi <= we * he.
Proof.
  assert (0 <= (w1 - wi) * (h2 - hi)) by (apply Qmult_le_0_compat; lra).
  assert (0 <= (w2 - wi) * (h1 - hi)) by (apply Qmult_le_0_compat; lra).
  assert (0 <= (we - (w1 + w2 - wi)) * (h1 + h2 - hi))
    by (apply Qmult_le_0_compat; lra).
  assert (0 <= we * (he - (h1 + h2 - hi)))
    by (apply Qmult_le_0_compat; lra).
  lra.
Qed.
End Areas.

(** ** One pair of boxes *)

Section RowFacts.
Variables A B : box.

Lemma row_widths :
  0 <= row_intersect_width A B /\
  row_intersect_width A B <= row_b1_width A /\
  row_intersect_width A B <= row_b2_width B /\
  row_b1_width A <= row_enclose_width A B /\
  row_b2_width B <= row_enclose_width A B /\
  row_b1_width A + row_b2_width B - row_intersect_width A B
    <= row_enclose_width A B.
Proof. apply axis_extents; apply Qmin_le_Qmax. Qed.

Lemma row_heights :
  0 <= row_intersect_height A B /\
  row_intersect_height A B <= row_b1_height A /\
  row_intersect_height A B <= row_b2_height B /\
  row_b1_height A <= row_enclose_height A B /\
  row_b2_height B <= row_enclose_height A B /\
  row_b1_height A + row_b2_height B - row_intersect_height A B
    <= row_enclose_height A B.
Proof. apply axis_extents; apply Qmin_le_Qmax. Qed.

Lemma row_intersect_area_nonneg : 0 <= row_intersect_area A B.
Proof.
  exact (areas_intersect_nonneg _ _ _ _ _ _ _ _ row_widths row_heights).
Qed.

Lemma row_intersect_le_b1_area : row_intersect_area A B <= row_b1_area A.
Proof.
  exact (areas_intersect_le_1 _ _ _ _ _ _ _ _ row_widths row_heights).
Qed.

Lemma row_intersect_le_b2_area : row_intersect_area A B <= row_b2_area B.
Proof.
  exact (areas_intersect_le_2 _ _ _ _ _ _ _ _ row_widths row_heights).
Qed.

Lemma row_union_le_enclose : row_union_area A B <= row_enclose_area A B.
Proof.
  exact (areas_union_le_enclose _ _ _ _ _ _ _ _ row_widths row_heights).
Qed.

Lemma row_intersect_le_union : row_intersect_area A B <= row_union_area A B.
Proof.
  unfold row_union_area.
  pose proof row_intersect_le_b1_area. pose proof row_intersect_le_b2_area.
  lra.
Qed.

Lemma row_union_nonneg : 0 <= row_union_area A B.
Proof.
  pose proof row_intersect_area_nonneg. pose proof row_intersect_le_union.
  lra.
Qed.

Lemma row_iou_range : 0 <= row_iou A B <= 1.
Proof.
  apply div_no_nan_range;
    [apply row_intersect_area_nonneg | apply row_intersect_le_union].
Qed.

Lemma row_penalty_range : 0 <= row_penalty A B <= 1.
Proof.
  pose proof row_union_le_enclose. pose proof row_union_nonneg.
  apply div_no_nan_range; lra.
Qed.

Lemma row_giou_le_iou : row_giou A B <= row_iou A B.
Proof. unfold row_giou. pose proof row_penalty_range. lra. Qed.

Lemma row_giou_range : -1 <= row_giou A B <= 1.
Proof.
  unfold row_giou. pose proof row_penalty_range. pose proof row_iou_range.
  lra.
Qed.

Lemma row_giou_gt_m1 : 0 < row_union_area A B -> -1 < row_giou A B.
Proof.
  intros HU. unfold row_giou.
  pose proof row_union_le_enclose. pose proof row_iou_range.
  assert (row_penalty A B < 1) by (apply div_no_nan_lt_1; lra).
  lra.
Qed.

Lemma row_giou_eq_iou :
  row_enclose_area A B == row_union_area A B -> row_giou A B == row_iou A B.
Proof.
  intros HE. unfold row_giou.
  assert (row_penalty A B == 0) by (apply div_no_nan_zero_num; lra).
  lra.
Qed.

Lemma row_iou_zero_union : row_union_area A B == 0 -> row_iou A B = 0.
Proof. apply div_no_nan_zero_den. Qed.

Lemma row_penalty_zero_enclose :
  row_enclose_area A B == 0 -> row_penalty A B = 0.
Proof. apply div_no_nan_zero_den. Qed.

Lemma row_iou_zero_b1_area : row_b1_area A == 0 -> row_iou A B == 0.
Proof.
  intros Ha. apply div_no_nan_zero_num.
  pose proof row_intersect_area_nonneg. pose proof row_intersect_le_b1_area.
  lra.
Qed.

Lemma row_iou_zero_b2_area : row_b2_area B == 0 -> row_iou A B == 0.
Proof.
  intros Ha. apply div_no_nan_zero_num.
  pose proof row_intersect_area_nonneg. pose proof row_intersect_le_b2_area.
  lra.
Qed.
End RowFacts.

(** ** Exchanging the two boxes *)

Ltac unfold_b_rows :=
  unfold row_b1_area, row_b2_area, row_b1_width, row_b2_width, row_b1_height,
    row_b2_height, row_b1_xmax, row_b2_xmax, row_b1_xmin, row_b2_xmin,
    row_b1_ymax, row_b2_ymax, row_b1_ymin, row_b2_ymin.

Section RowSym.
Variables A B : box.

Lemma row_intersect_area_sym :
  row_intersect_area A B == row_intersect_area B A.
Proof.
  unfold row_intersect_area, row_intersect_width, row_intersect_height,
    row_intersect_xmax, row_intersect_xmin, row_intersect_ymax,
    row_intersect_ymin.
  rewrite (Q.min_comm (row_b1_xmax A)), (Q.max_comm (row_b1_xmin A)),
    (Q.min_comm (row_b1_ymax A)), (Q.max_comm (row_b1_ymin A)).
  reflexivity.
Qed.

Lemma row_enclose_area_sym : row_enclose_area A B == row_enclose_area B A.
Proof.
  unfold row_enclose_area, row_enclose_width, row_enclose_height,
    row_enclose_xmax, row_enclose_xmin, row_enclose_ymax, row_enclose_ymin.
  rewrite (Q.max_comm (row_b1_xmax A)), (Q.min_comm (row_b1_xmin A)),
    (Q.max_comm (row_b1_ymax A)), (Q.min_comm (row_b1_ymin A)).
  reflexivity.
Qed.

Lemma row_union_area_sym : row_union_area A B == row_union_area B A.
Proof.
  unfold row_union_area. rewrite row_intersect_area_sym.
  unfold_b_rows. ring.
Qed.

Lemma row_iou_sym : row_iou A B == row_iou B A.
Proof.
  unfold row_iou.
  now rewrite row_intersect_area_sym, row_union_area_sym.
Qed.

Lemma row_penalty_sym : row_penalty A B == row_penalty B A.
Proof.
  unfold row_penalty.
  now rewrite row_enclose_area_sym, row_union_area_sym.
Qed.

Lemma row_giou_sym : row_giou A B == row_giou B A.
Proof. unfold row_giou. now rewrite row_iou_sym, row_penalty_sym. Qed.

Lemma row_score_sym (mode : string) :
  row_score mode A B == row_score mode B A.
Proof.
  unfold row_score.
  destruct (String.eqb mode "iou"); [apply row_iou_sym | apply row_giou_sym].
Qed.
End RowSym.

(** ** Swapping the corners of a box *)

Section RowSwap.
Variables A B : box.

Lemma row_b1_ymin_swap : row_b1_ymin (swap_corners A) == row_b1_ymin A.
Proof. apply Q.min_comm. Qed.

Lemma row_b1_xmin_swap : row_b1_xmin (swap_corners A) == row_b1_xmin A.
Proof. apply Q.min_comm. Qed.

Lemma row_b1_ymax_swap : row_b1_ymax (swap_corners A) == row_b1_ymax A.
Proof. apply Q.max_comm. Qed.

Lemma row_b1_xmax_swap : row_b1_xmax (swap_corners A) == row_b1_xmax A.
Proof. apply Q.max_comm. Qed.

Ltac swap_coords :=
  rewrite ?row_b1_ymin_swap, ?row_b1_xmin_swap, ?row_b1_ymax_swap,
    ?row_b1_xmax_swap; reflexivity.

Lemma row_b1_area_swap : row_b1_area (swap_corners A) == row_b1_area A.
Proof. unfold row_b1_area, row_b1_width, row_b1_height. swap_coords. Qed.

Lemma row_intersect_area_swap :
  row_intersect_area (swap_corners A) B == row_intersect_area A B.
Proof.
  unfold row_intersect_area, row_intersect_width, row_intersect_height,
    row_intersect_xmax, row_intersect_xmin, row_intersect_ymax,
    row_intersect_ymin.
  swap_coords.
Qed.

Lemma row_enclose_area_swap :
  row_enclose_area (swap_corners A) B == row_enclose_area A B.
Proof.
  unfold row_enclose_area, row_enclose_width, row_enclose_height,
    row_enclose_xmax, row_enclose_xmin, row_enclose_ymax, row_enclose_ymin.
  swap_coords.
Qed.

Lemma row_union_area_swap :
  row_union_area (swap_corners A) B == row_union_area A B.
Proof.
  unfold row_union_area.
  now rewrite row_intersect_area_swap, row_b1_area_swap.
Qed.

Lemma row_iou_swap : row_iou (swap_corners A) B == row_iou A B.
Proof.
  unfold row_iou.
  now rewrite row_intersect_area_swap, row_union_area_swap.
Qed.

Lemma row_giou_swap : row_giou (swap_corners A) B == row_giou A B.
Proof.
  unfold row_giou, row_penalty.
  now rewrite row_iou_swap, row_enclose_area_swap, row_union_area_swap.
Qed.

Lemma row_score_swap_1 (mode : string) :
  row_score mode (swap_corners A) B == row_score mode A B.
Proof.
  unfold row_score.
  destruct (String.eqb mode "iou"); [apply row_iou_swap | apply row_giou_swap].
Qed.
End RowSwap.

Lemma row_score_swap_2 (mode : string) (A B : box) :
  row_score mode A (swap_corners B) == row_score mode A B.
Proof.
  rewrite (row_score_sym A (swap_corners B)), row_score_swap_1.
  apply row_score_sym.
Qed.

Lemma row_score_same_or_swapped (mode : string) (A A' B B' : box) :
  same_or_swapped A A' -> same_or_swapped B B' ->
  row_score mode A' B' == row_score mode A B.
Proof.
  intros [->| ->] [->| ->];
    rewrite ?row_score_swap_1, ?row_score_swap_2; reflexivity.
Qed.

(** ** A box against itself *)

Section RowSelf.
Variable A : box.

Lemma row_intersect_area_self : row_intersect_area A A == row_b1_area A.
Proof.
  unfold row_intersect_area, row_intersect_width, row_intersect_height,
    row_intersect_xmax, row_intersect_xmin, row_intersect_ymax,
    row_intersect_ymin.
  rewrite !Q.min_id, !Q.max_id. reflexivity.
Qed.

Lemma row_enclose_area_self : row_enclose_area A A == row_b1_area A.
Proof.
  unfold row_enclose_area, row_enclose_width, row_enclose_height,
    row_enclose_xmax, row_enclose_xmin, row_enclose_ymax, row_enclose_ymin.
  rewrite !Q.min_id, !Q.max_id. reflexivity.
Qed.

Lemma row_union_area_self : row_union_area A A == row_b1_area A.
Proof.
  unfold row_union_area. rewrite row_intersect_area_self.
  unfold_b_rows. ring.
Qed.

Lemma row_penalty_self : row_penalty A A == 0.
Proof.
  apply div_no_nan_zero_num.
  rewrite row_enclose_area_self, row_union_area_self. ring.
Qed.

Lemma row_iou_self : 0 < row_b1_area A -> row_iou A A == 1.
Proof.
  intros Ha. unfold row_iou.
  rewrite row_intersect_area_self, row_union_area_self.
  apply div_no_nan_self. lra.
Qed.

Lemma row_giou_self : 0 < row_b1_area A -> row_giou A A == 1.
Proof.
  intros Ha. unfold row_giou.
  rewrite (row_iou_self Ha), row_penalty_self. ring.
Qed.

End RowSelf.

(** ** Boxes apart on one axis *)

Section GapAreas.
Variables w1 w2 wi we h1 h2 hi he : Q.
Hypothesis Hw : 0 <= wi /\ wi <= w1 /\ wi <= w2 /\ w1 <= we /\ w2 <= we /\
                w1 + w2 - wi <= we.
Hypothesis Hh : 0 <= hi /\ hi <= h1 /\ hi <= h2 /\ h1 <= he /\ h2 <= he /\
                h1 + h2 - hi <= he.
Hypothesis gap : wi == 0 /\ w1 + w2 < we.

Lemma gap_intersect_zero : wi * hi == 0.
Proof. destruct gap as [-> _]. ring. Qed.

Lemma gap_union_lt_enclose :
  0 < we * he -> w1 * h1 + w2 * h2 - wi * hi < we * he.
Proof.
  intros HE. pose proof gap_intersect_zero as HI.
  assert (Hhe : 0 < he).
  { destruct (Qlt_le_dec 0 he) as [Hp|Hn]; [exact Hp|].
    assert (Z : he == 0) by lra. rewrite Z in HE. lra. }
  assert (0 <= w1 * (he - h1)) by (apply Qmult_le_0_compat; lra).
  assert (0 <= w2 * (he - h2)) by (apply Qmult_le_0_compat; lra).
  assert (0 < (we - (w1 + w2)) * he) by (apply Qmult_lt_0_compat; lra).
  lra.
Qed.
End GapAreas.

Section RowApart.
Variables A B : box.
Hypothesis apart : separated A B.

Lemma row_separated_axis :
  (row_intersect_width A B == 0 /\
   row_b1_width A + row_b2_width B < row_enclose_width A B) \/
  (row_intersect_height A B == 0 /\
   row_b1_height A + row_b2_height B < row_enclose_height A B).
Proof.
  destruct apart as [G|[G|[G|G]]].
  - left. apply axis_gap; try apply Qmin_le_Qmax. left. exact G.
  - left. apply axis_gap; try apply Qmin_le_Qmax. right. exact G.
  - right. apply axis_gap; try apply Qmin_le_Qmax. left. exact G.
  - right. apply axis_gap; try apply Qmin_le_Qmax. right. exact G.
Qed.

Lemma row_separated_intersect : row_intersect_area A B == 0.
Proof.
  unfold row_intersect_area.
  destruct row_separated_axis as [[-> _]|[-> _]]; ring.
Qed.

Lemma row_separated_iou : row_iou A B == 0.
Proof. apply div_no_nan_zero_num, row_separated_intersect. Qed.

Lemma row_separated_union_lt_enclose :
  0 < row_enclose_area A B -> row_union_area A B < row_enclose_area A B.
Proof.
  intros HE.
  pose proof (row_widths A B) as Hw. pose proof (row_heights A B) as Hh.
  destruct row_separated_axis as [G|G].
  - exact (gap_union_lt_enclose _ _ _ _ _ _ _ _ Hw Hh G HE).
  - unfold row_enclose_area in HE. rewrite Qmult_comm in HE.
    pose proof (gap_union_lt_enclose _ _ _ _ _ _ _ _ Hh Hw G HE) as L.
    unfold row_union_area, row_b1_area, row_b2_area, row_intersect_area,
      row_enclose_area.
    lra.
Qed.

Lemma row_separated_giou_neg : 0 < row_enclose_area A B -> row_giou A B < 0.
Proof.
  intros HE. unfold row_giou. rewrite row_separated_iou.
  pose proof (row_separated_union_lt_enclose HE).
  assert (0 < row_penalty A B) by (apply div_no_nan_pos; lra).
  lra.
Qed.

Lemma row_separated_giou_zero :
  row_enclose_area A B == 0 -> row_giou A B == 0.
Proof.
  intros HE. unfold row_giou.
  rewrite row_separated_iou, (row_penalty_zero_enclose _ _ HE). ring.
Qed.
End RowApart.

(** ** From rows to batches *)

Lemma do_giou_calculate_iou (b1 b2 : boxes) :
  do_giou_calculate b1 b2 "iou" = map2 row_iou b1 b2.
Proof. apply iou_rows. Qed.

Lemma do_giou_calculate_giou (b1 b2 : boxes) :
  do_giou_calculate b1 b2 "giou" = map2 row_giou b1 b2.
Proof. apply giou_rows. Qed.

Lemma Forall2_map2_rel {X Y : Type} (P : X -> X -> Prop) (P' : Y -> Y -> Prop)
      (R : Q -> Q -> Prop) (f : X -> Y -> Q) :
  (forall x x' y y', P x x' -> P' y y' -> R (f x' y') (f x y)) ->
  forall l1 l1', Forall2 P l1 l1' ->
  forall l2 l2', Forall2 P' l2 l2' ->
  Forall2 R (map2 f l1' l2') (map2 f l1 l2).
Proof.
  intros Hf l1 l1' H1. induction H1 as [|x x' l1 l1' Hx H1 IH];
    intros l2 l2' H2; destruct H2; cbn; auto.
Qed.

Lemma map2_flip_eq {X : Type} (f : X -> X -> Q) (l1 l2 : list X) :
  (forall x y, f x y == f y x) -> tensor_eq (map2 f l1 l2) (map2 f l2 l1).
Proof.
  intros Hf. unfold tensor_eq. revert l2.
  induction l1 as [|x l1 IH]; intros [|y l2]; cbn; constructor.
  - apply Hf.
  - apply IH.
Qed.

Lemma sub_s_tensor_eq (z : Q) (t t' : tensor) :
  tensor_eq t t' -> tensor_eq (tf.sub_s z t) (tf.sub_s z t').
Proof.
  unfold tensor_eq. intros H.
  induction H as [|x x' t t' Hx H IH]; cbn; constructor.
  - now rewrite Hx.
  - exact IH.
Qed.

(** ** The check of [mode] *)

Lemma giou_loss_ok (y_true y_pred : boxes) (mode : string) :
  mode = "giou"%string \/ mode = "iou"%string ->
  giou_loss y_true y_pred mode =
  Ok (tf.sub_s 1 (do_giou_calculate y_pred y_true mode)).
Proof. intros [->| ->]; reflexivity. Qed.

Lemma giou_loss_raise (y_true y_pred : boxes) (mode : string) :
  mode <> "giou"%string -> mode <> "iou"%string ->
  giou_loss y_true y_pred mode = Raise (ValueError mode_error).
Proof.
  intros Hg Hi. unfold giou_loss. cbn [existsb].
  apply String.eqb_neq in Hg, Hi. rewrite Hg, Hi. reflexivity.
Qed.

Lemma giou_loss_result_eq (y_true y_pred y_true' y_pred' : boxes)
      (mode : string) :
  tensor_eq (do_giou_calculate y_pred y_true mode)
            (do_giou_calculate y_pred' y_true' mode) ->
  result_eq (giou_loss y_true y_pred mode) (giou_loss y_true' y_pred' mode).
Proof.
  intros H. unfold giou_loss.
  destruct (negb (existsb (String.eqb mode) ["giou"; "iou"]%string)); cbn.
  - reflexivity.
  - apply sub_s_tensor_eq. exact H.
Qed.

Lemma nth_map_some {X : Type} (l : list X) (i : nat) (x : X) :
  nth_error l i = Some x -> forall (g : X -> Q) d, nth i (map g l) d = g x.
Proof.
  revert i. induction l as [|x1 l IH]; intros [|i]; cbn; try discriminate.
  - intros [= ->]. reflexivity.
  - apply IH.
Qed.

(** ** IEEE floats *)

Lemma nth_error_map2 {X Y Z : Type} (f : X -> Y -> Z) (l1 : list X)
      (l2 : list Y) (i : nat) (z : Z) :
  nth_error (map2 f l1 l2) i = Some z ->
  exists x y, nth_error l1 i = Some x /\ nth_error l2 i = Some y /\
              z = f x y.
Proof.
  revert l2 i. induction l1 as [|x l1 IH]; intros [|y l2] [|i]; cbn;
    try discriminate.
  - intros [= <-]. exists x, y. auto.
  - apply IH.
Qed.

Lemma SFsub_zero_r (p e : Z) (x : spec_float) :
  SFsub p e x (S754_zero false) = x.
Proof. destruct x as [[|]|[|]| |s m ex]; reflexivity. Qed.

Lemma f_div_no_nan_zero_den (d : dtype) (x y : spec_float) :
  SFeqb y f_zero = true -> f_div_no_nan d x y = f_zero.
Proof. intros H. unfold f_div_no_nan. fold f_zero. now rewrite H. Qed.

(** The guards of the two divisions, on floats of any dtype and for any
    inputs, NaN and infinities included. *)
Lemma f_guarded_divisions (d : dtype) (b1 b2 : list fbox) (i : nat)
      (u s e p g : spec_float) :
  nth_error (f_union_area d b1 b2) i = Some u ->
  nth_error (f_iou d b1 b2) i = Some s ->
  nth_error (f_enclose_area d b1 b2) i = Some e ->
  nth_error (f_penalty d b1 b2) i = Some p ->
  nth_error (f_giou d b1 b2) i = Some g ->
  (SFeqb u f_zero = true -> s = f_zero) /\
  (SFeqb e f_zero = true -> p = f_zero /\ g = s).
Proof.
  intros Hu Hs He Hp Hg.
  apply nth_error_map2 in Hg. destruct Hg as (s' & p' & Hs' & Hp' & ->).
  assert (s' = s) by congruence. assert (p' = p) by congruence.
  subst s' p'. clear Hs' Hp'.
  apply nth_error_map2 in Hs. destruct Hs as (x & u' & _ & Hu' & ->).
  apply nth_error_map2 in Hp. destruct Hp as (y & e' & _ & He' & ->).
  fold (f_union_area d b1 b2) in Hu'.
  fold (f_enclose_area d b1 b2) in He'.
  assert (u' = u) by congruence. assert (e' = e) by congruence.
  subst u' e'.
  split.
  - apply f_div_no_nan_zero_den.
  - intros Z. rewrite (f_div_no_nan_zero_den d y e Z).
    split; [reflexivity | apply SFsub_zero_r].
Qed.

(** * Properties *)

(** C1. For [boxes1 = [[4,3,7,5],[5,6,10,7]]] as [y_true] and
    [boxes2 = [[3,4,6,8],[14,14,15,15]]] as [y_pred], [giou_loss] in mode
    'giou' returns the losses 43/40 = 1.075 and 29/15 = 1.9333..., which are
    1 minus the giou scores -3/40 and -14/15 of the two pairs. *)
Theorem giou_loss_worked_example :
  exists loss : tensor,
    giou_loss boxes1 boxes2 "giou" = Ok loss /\
    tensor_eq loss [43 # 40; 29 # 15] /\
    loss = tf.sub_s 1 (do_giou_calculate boxes2 boxes1 "giou") /\
    tensor_eq (do_giou_calculate boxes2 boxes1 "giou")
              [(-3) # 40; (-14) # 15].
Proof.
  eexists. split; [reflexivity|].
  repeat split; vm_compute; repeat constructor.
Qed.






(** Two distinct points have union area 0 and an enclosing box of area 1,
    so their iou is 0 by the guard, the penalty is (1 - 0) / 1 and the giou
    score is exactly -1, outside (-1, 1]. *)
Lemma giou_reaches_minus_1 :
  tensor_eq (do_giou_calculate [mkBox 0 0 0 0] [mkBox 1 1 1 1] "giou") [-1] /\
  ~ Forall (fun g => -1 < g /\ g <= 1)
      (do_giou_calculate [mkBox 0 0 0 0] [mkBox 1 1 1 1] "giou").
Proof.
  split.
  - vm_compute. repeat constructor.
  - intros H. inversion H as [|g t [Hlt _] _]; subst.
    vm_compute in Hlt. discriminate Hlt.
Qed.




(** The guards in exact arithmetic.  At every index: a union area of 0
    gives an iou of exactly 0; an enclosing area of 0 gives a penalty term
    of exactly 0, so that giou equals iou; and a box of area 0 on either
    side gives an iou of 0.  [giou_loss] returns a tensor in both modes. *)
Lemma guarded_divisions_exact (b1 b2 : boxes) :
  (forall i : nat,
     nth i (union_area b1 b2) 0 == 0 ->
     nth i (do_giou_calculate b1 b2 "iou") 0 = 0) /\
  (forall i : nat,
     nth i (enclose_area b1 b2) 0 == 0 ->
     nth i (penalty b1 b2) 0 = 0 /\
     nth i (do_giou_calculate b1 b2 "giou") 0 ==
     nth i (do_giou_calculate b1 b2 "iou") 0) /\
  (forall i : nat,
     nth i (b1_area b1) 0 == 0 \/ nth i (b2_area b2) 0 == 0 ->
     nth i (do_giou_calculate b1 b2 "iou") 0 == 0) /\
  (exists loss, giou_loss b2 b1 "iou" = Ok loss) /\
  (exists loss, giou_loss b2 b1 "giou" = Ok loss).
Proof.
  rewrite do_giou_calculate_giou, do_giou_calculate_iou, union_area_rows,
    enclose_area_rows, penalty_rows, b1_area_rows, b2_area_rows.
  split; [|split; [|split; [|split]]]; try (eexists; reflexivity);
    intros i; destruct (nth_map2 b1 b2 i) as [(A & B & E1 & E2 & E)|E];
    rewrite ?E, ?E1, ?E2.
  - apply row_iou_zero_union.
  - reflexivity.
  - intros HE. split; [apply row_penalty_zero_enclose, HE|].
    unfold row_giou. rewrite (row_penalty_zero_enclose _ _ HE). ring.
  - split; reflexivity.
  - intros [H|H];
      [apply row_iou_zero_b1_area | apply row_iou_zero_b2_area]; exact H.
  - reflexivity.
Qed.




(** C6. A mode other than 'iou' and 'giou' makes [giou_loss] raise
    [ValueError], whatever the two tensors are, with a message that names
    both legal values; with mode 'iou' or 'giou' it raises nothing and
    returns 1 minus the scores. *)
Theorem giou_loss_mode_check (y_true y_pred : boxes) (mode : string) :
  (mode <> "giou"%string -> mode <> "iou"%string ->
   giou_loss y_true y_pred mode =
   Raise (ValueError "Value of mode should be 'iou' or 'giou'")) /\
  (mode = "giou"%string \/ mode = "iou"%string ->
   giou_loss y_true y_pred mode =
   Ok (tf.sub_s 1 (do_giou_calculate y_pred y_true mode))) /\
  String.index 0 "'iou'" mode_error = Some 24%nat /\
  String.index 0 "'giou'" mode_error = Some 33%nat.
Proof.
  split; [|split; [|split]].
  - apply giou_loss_raise.
  - apply giou_loss_ok.
  - reflexivity.
  - reflexivity.
Qed.

Lemma giou_loss_mode_check_witness :
  giou_loss boxes1 boxes2 "xiou" =
  Raise (ValueError "Value of mode should be 'iou' or 'giou'") /\
  giou_loss boxes1 boxes2 "iou" =
  Ok (tf.sub_s 1 (do_giou_calculate boxes2 boxes1 "iou")).
Proof.
  split.
  - apply (giou_loss_mode_check boxes1 boxes2 "xiou"); discriminate.
  - apply (giou_loss_mode_check boxes1 boxes2 "iou"). right. reflexivity.
Defined.

(** C7. Giving any of the boxes by its two other corners, (c2, c3, c0, c1)
    for (c0, c1, c2, c3), leaves every score, in both modes, and every loss
    the same number. *)
Theorem corner_swap_invariance (b1 b1' b2 b2' : boxes) (mode : string) :
  Forall2 same_or_swapped b1 b1' ->
  Forall2 same_or_swapped b2 b2' ->
  tensor_eq (do_giou_calculate b1' b2' mode) (do_giou_calculate b1 b2 mode) /\
  result_eq (giou_loss b2' b1' mode) (giou_loss b2 b1 mode).
Proof.
  intros H1 H2.
  assert (S : tensor_eq (do_giou_calculate b1' b2' mode)
                        (do_giou_calculate b1 b2 mode)).
  { rewrite !do_giou_calculate_rows.
    apply (Forall2_map2_rel same_or_swapped same_or_swapped);
      [|exact H1|exact H2].
    intros A A' B B' HA HB. now apply row_score_same_or_swapped. }
  split; [exact S | apply giou_loss_result_eq, S].
Qed.

Lemma corner_swap_invariance_witness :
  tensor_eq
    (do_giou_calculate [mkBox 7 5 4 3; mkBox 5 6 10 7]
                       [mkBox 3 4 6 8; mkBox 15 15 14 14] "giou")
    (do_giou_calculate boxes1 boxes2 "giou").
Proof.
  apply (corner_swap_invariance boxes1 [mkBox 7 5 4 3; mkBox 5 6 10 7]
           boxes2 [mkBox 3 4 6 8; mkBox 15 15 14 14] "giou").
  - constructor; [right; reflexivity|].
    constructor; [left; reflexivity | constructor].
  - constructor; [left; reflexivity|].
    constructor; [right; reflexivity | constructor].
Defined.

(** A box of area 0 against itself has union area 0, so the guarded
    division gives iou = 0 and giou = 0, and the loss is 1. *)
Lemma degenerate_box_against_itself :
  tensor_eq (do_giou_calculate [mkBox 1 2 1 5] [mkBox 1 2 1 5] "iou") [0] /\
  tensor_eq (do_giou_calculate [mkBox 1 2 1 5] [mkBox 1 2 1 5] "giou") [0] /\
  ~ Forall (fun s => s == 1)
      (do_giou_calculate [mkBox 1 2 1 5] [mkBox 1 2 1 5] "iou").
Proof.
  split; [|split].
  - vm_compute. repeat constructor.
  - vm_compute. repeat constructor.
  - intros H. inversion H as [|s t Hs _]; subst.
    vm_compute in Hs. discriminate Hs.
Qed.




(** Two segments of height 0 on one line, with a gap of 1 between them, are
    disjoint and differ, yet their enclosing box has area 0, the guarded
    penalty is 0 and the giou score is 0, not negative. *)
Lemma collinear_segments_giou_zero :
  separated (mkBox 0 0 0 1) (mkBox 0 2 0 3) /\
  tensor_eq (enclose_area [mkBox 0 0 0 1] [mkBox 0 2 0 3]) [0] /\
  tensor_eq (do_giou_calculate [mkBox 0 0 0 1] [mkBox 0 2 0 3] "iou") [0] /\
  tensor_eq (do_giou_calculate [mkBox 0 0 0 1] [mkBox 0 2 0 3] "giou") [0] /\
  ~ Forall (fun g => g < 0)
      (do_giou_calculate [mkBox 0 0 0 1] [mkBox 0 2 0 3] "giou").
Proof.
  split; [|split; [|split; [|split]]].
  - left. vm_compute. reflexivity.
  - vm_compute. repeat constructor.
  - vm_compute. repeat constructor.
  - vm_compute. repeat constructor.
  - intros H. inversion H as [|g t Hg _]; subst.
    vm_compute in Hg. discriminate Hg.
Qed.






(** * Further properties of the module *)

(** ** Shape of the result, and independence of the pairs *)

Lemma map2_length {X Y Z : Type} (f : X -> Y -> Z) (l1 : list X)
      (l2 : list Y) :
  List.length l1 = List.length l2 ->
  List.length (map2 f l1 l2) = List.length l1.
Proof.
  revert l2. induction l1 as [|x l1 IH]; intros [|y l2]; cbn;
    try discriminate; auto.
Qed.

Lemma map2_app {X Y Z : Type} (f : X -> Y -> Z) (l1 l1' : list X)
      (l2 l2' : list Y) :
  List.length l1 = List.length l2 ->
  map2 f (l1 ++ l1') (l2 ++ l2') = map2 f l1 l2 ++ map2 f l1' l2'.
Proof.
  revert l2. induction l1 as [|x l1 IH]; intros [|y l2]; cbn;
    try discriminate; auto.
  intros [= H]. f_equal. apply IH, H.
Qed.

(** X1. For two batches of N boxes each, [do_giou_calculate] gives N scores
    and [giou_loss], when it returns, N losses: one per pair. *)
Theorem one_score_per_pair (y_true y_pred : boxes) (mode : string) :
  List.length y_true = List.length y_pred ->
  List.length (do_giou_calculate y_pred y_true mode) = List.length y_true /\
  forall loss, giou_loss y_true y_pred mode = Ok loss ->
               List.length loss = List.length y_true.
Proof.
  intros HN.
  assert (L : List.length (do_giou_calculate y_pred y_true mode) =
              List.length y_true).
  { rewrite do_giou_calculate_rows, map2_length; auto. }
  split; [exact L|].
  intros loss. unfold giou_loss.
  destruct (negb _); [discriminate|].
  intros [= <-]. unfold tf.sub_s. rewrite length_map. exact L.
Qed.

Lemma one_score_per_pair_witness :
  List.length (do_giou_calculate boxes2 boxes1 "giou") = 2%nat.
Proof.
  destruct (one_score_per_pair boxes1 boxes2 "giou") as [H _].
  - reflexivity.
  - exact H.
Defined.

(** X2. The scores of two batches put end to end are the scores of the
    first parts followed by the scores of the second parts: no pair
    influences another. *)
Theorem scores_of_concatenation (b1 b1' b2 b2' : boxes) (mode : string) :
  List.length b1 = List.length b2 ->
  do_giou_calculate (b1 ++ b1') (b2 ++ b2') mode =
  do_giou_calculate b1 b2 mode ++ do_giou_calculate b1' b2' mode.
Proof.
  intros HN. rewrite !do_giou_calculate_rows. apply map2_app, HN.
Qed.

Lemma scores_of_concatenation_witness :
  do_giou_calculate boxes1 boxes2 "giou" =
  do_giou_calculate [mkBox 4 3 7 5] [mkBox 3 4 6 8] "giou" ++
  do_giou_calculate [mkBox 5 6 10 7] [mkBox 14 14 15 15] "giou".
Proof.
  apply (scores_of_concatenation [mkBox 4 3 7 5] [mkBox 5 6 10 7]
           [mkBox 3 4 6 8] [mkBox 14 14 15 15] "giou").
  reflexivity.
Defined.

(** X3. The score at index [i] is the score of the box at index [i] of the
    first batch against the box at index [i] of the second one, as computed
    on these two boxes alone: boxes are paired by index. *)
Theorem score_at_index (b1 b2 : boxes) (mode : string) (i : nat)
        (A B : box) :
  nth_error b1 i = Some A -> nth_error b2 i = Some B ->
  do_giou_calculate [A] [B] mode = [nth i (do_giou_calculate b1 b2 mode) 0].
Proof.
  intros HA HB. rewrite !do_giou_calculate_rows.
  rewrite (nth_map2_some b1 b2 i A B HA HB). reflexivity.
Qed.

Lemma score_at_index_witness :
  do_giou_calculate [mkBox 5 6 10 7] [mkBox 14 14 15 15] "giou" =
  [nth 1 (do_giou_calculate boxes1 boxes2 "giou") 0].
Proof.
  apply (score_at_index boxes1 boxes2 "giou" 1); reflexivity.
Defined.

(** ** When the scores are equal, positive, or a ratio of areas *)

Section AxisInside.
Variables lo1 hi1 lo2 hi2 : Q.
Hypothesis ordered1 : lo1 <= hi1.
Hypothesis ordered2 : lo2 <= hi2.

Let w1 := Qmax zero (hi1 - lo1).
Let w2 := Qmax zero (hi2 - lo2).
Let wi := Qmax zero (Qmin hi1 hi2 - Qmax lo1 lo2).
Let we := Qmax zero (Qmax hi1 hi2 - Qmin lo1 lo2).

Lemma axis_inside : lo1 <= lo2 -> hi2 <= hi1 -> wi == w2 /\ we == w1.
Proof. subst w1 w2 wi we. intros. minmax_cases; lra. Qed.

Lemma axis_same :
  lo1 == lo2 -> hi1 == hi2 -> wi == w1 /\ wi == w2 /\ we == w1.
Proof. subst w1 w2 wi we. intros. minmax_cases; lra. Qed.

Lemma axis_full :
  0 < wi -> wi == w1 -> wi == w2 -> lo1 == lo2 /\ hi1 == hi2.
Proof. subst w1 w2 wi we. minmax_cases; lra. Qed.

Lemma axis_overlap : 0 < wi <-> Qmax lo1 lo2 < Qmin hi1 hi2.
Proof. subst w1 w2 wi we. split; minmax_cases; lra. Qed.
End AxisInside.

Section RowScores.
Variables A B : box.

Lemma row_giou_eq_iou_iff :
  row_giou A B == row_iou A B <-> row_enclose_area A B == row_union_area A B.
Proof.
  split; [|apply row_giou_eq_iou].
  unfold row_giou. intros H.
  pose proof (row_union_le_enclose A B). pose proof (row_union_nonneg A B).
  destruct (Qlt_le_dec (row_union_area A B) (row_enclose_area A B)) as [L|L];
    [|lra].
  assert (0 < row_penalty A B) by (apply div_no_nan_pos; lra).
  lra.
Qed.

Lemma row_intersect_area_pos :
  0 < row_intersect_area A B <->
  0 < row_intersect_width A B /\ 0 < row_intersect_height A B.
Proof.
  destruct (row_widths A B) as (Hw & _). destruct (row_heights A B) as (Hh & _).
  unfold row_intersect_area. split.
  - intros HI. split.
    + destruct (Qlt_le_dec 0 (row_intersect_width A B)) as [P|N]; [exact P|].
      assert (Z : row_intersect_width A B == 0) by lra.
      rewrite Z in HI. lra.
    + destruct (Qlt_le_dec 0 (row_intersect_height A B)) as [P|N]; [exact P|].
      assert (Z : row_intersect_height A B == 0) by lra.
      rewrite Z in HI. lra.
  - intros [P1 P2]. now apply Qmult_lt_0_compat.
Qed.

Lemma row_iou_pos_iff_intersect :
  0 < row_iou A B <-> 0 < row_intersect_area A B.
Proof.
  pose proof (row_intersect_area_nonneg A B) as H0.
  pose proof (row_intersect_le_union A B) as HU.
  split.
  - intros P.
    destruct (Qlt_le_dec 0 (row_intersect_area A B)) as [L|L]; [exact L|].
    assert (Z : row_iou A B == 0) by (apply div_no_nan_zero_num; lra).
    lra.
  - intros P. apply div_no_nan_pos; lra.
Qed.

Lemma row_iou_pos_iff : 0 < row_iou A B <-> overlapping A B.
Proof.
  rewrite row_iou_pos_iff_intersect, row_intersect_area_pos.
  unfold overlapping.
  pose proof (axis_overlap (row_b1_xmin A) (row_b1_xmax A) (row_b2_xmin B)
                (row_b2_xmax B)) as Hx.
  pose proof (axis_overlap (row_b1_ymin A) (row_b1_ymax A) (row_b2_ymin B)
                (row_b2_ymax B)) as Hy.
  cbv zeta in Hx, Hy.
  split; intros [P1 P2]; split;
    first [apply Hx; exact P1 | apply Hy; exact P2].
Qed.

Lemma row_not_overlapping :
  ~ overlapping A B -> row_iou A B == 0 /\ row_giou A B <= 0.
Proof.
  intros N. pose proof (row_iou_range A B). pose proof (row_giou_le_iou A B).
  assert (~ 0 < row_iou A B) by (rewrite row_iou_pos_iff; exact N).
  split; lra.
Qed.

Lemma row_inside_areas :
  inside B A ->
  row_intersect_area A B == row_b2_area B /\
  row_union_area A B == row_b1_area A /\
  row_enclose_area A B == row_b1_area A.
Proof.
  intros (Y1 & Y2 & X1 & X2).
  assert (row_intersect_width A B == row_b2_width B /\
          row_enclose_width A B == row_b1_width A) as [Wi We]
    by (apply axis_inside; first [apply Qmin_le_Qmax | assumption]).
  assert (row_intersect_height A B == row_b2_height B /\
          row_enclose_height A B == row_b1_height A) as [Hi He]
    by (apply axis_inside; first [apply Qmin_le_Qmax | assumption]).
  assert (I : row_intersect_area A B == row_b2_area B).
  { unfold row_intersect_area, row_b2_area. now rewrite Wi, Hi. }
  assert (E : row_enclose_area A B == row_b1_area A).
  { unfold row_enclose_area, row_b1_area. now rewrite We, He. }
  split; [exact I|]. split; [|exact E].
  unfold row_union_area. rewrite I. ring.
Qed.

Lemma row_inside_scores :
  inside B A ->
  row_iou A B == div_no_nan (row_b2_area B) (row_b1_area A) /\
  row_giou A B == row_iou A B.
Proof.
  intros H. destruct (row_inside_areas H) as (I & U & E). split.
  - unfold row_iou. now rewrite I, U.
  - apply row_giou_eq_iou. now rewrite E, U.
Qed.
End RowScores.

(** ** When the score is 1 *)

Lemma prod_full (x y X Y : Q) :
  0 < x -> 0 < y -> x <= X -> y <= Y -> x * y == X * Y -> x == X /\ y == Y.
Proof.
  intros Hx Hy HX HY E.
  assert (0 <= (X - x) * y) by (apply Qmult_le_0_compat; lra).
  assert (0 <= X * (Y - y)) by (apply Qmult_le_0_compat; lra).
  split.
  - destruct (Qlt_le_dec x X) as [L|L]; [|lra].
    assert (0 < (X - x) * y) by (apply Qmult_lt_0_compat; lra). lra.
  - destruct (Qlt_le_dec y Y) as [L|L]; [|lra].
    assert (0 < X * (Y - y)) by (apply Qmult_lt_0_compat; lra). lra.
Qed.

Section RowOne.
Variables A B : box.

Lemma row_same_extent_areas :
  same_extent A B ->
  row_intersect_area A B == row_b1_area A /\
  row_b2_area B == row_b1_area A /\
  row_enclose_area A B == row_b1_area A.
Proof.
  intros (Y1 & X1 & Y2 & X2).
  assert (row_intersect_width A B == row_b1_width A /\
          row_intersect_width A B == row_b2_width B /\
          row_enclose_width A B == row_b1_width A) as (W1 & W2 & We)
    by (apply axis_same; assumption).
  assert (row_intersect_height A B == row_b1_height A /\
          row_intersect_height A B == row_b2_height B /\
          row_enclose_height A B == row_b1_height A) as (H1 & H2 & He)
    by (apply axis_same; assumption).
  unfold row_intersect_area, row_enclose_area, row_b1_area, row_b2_area.
  rewrite We, He, <- W2, <- H2, W1, H1. repeat split; reflexivity.
Qed.

Lemma row_iou_one_iff :
  row_iou A B == 1 <-> same_extent A B /\ 0 < row_b1_area A.
Proof.
  pose proof (row_intersect_area_nonneg A B) as I0.
  pose proof (row_intersect_le_union A B) as IU.
  pose proof (row_intersect_le_b1_area A B) as I1.
  pose proof (row_intersect_le_b2_area A B) as I2.
  destruct (row_widths A B) as (Wi & W1 & W2 & _).
  destruct (row_heights A B) as (Hi & H1 & H2 & _).
  split.
  - intros E.
    assert (U0 : 0 < row_union_area A B).
    { destruct (Qlt_le_dec 0 (row_union_area A B)) as [P|N]; [exact P|].
      assert (Z : row_iou A B == 0) by (apply div_no_nan_zero_num; lra).
      lra. }
    assert (EI : row_intersect_area A B == row_union_area A B).
    { destruct (Qlt_le_dec (row_intersect_area A B) (row_union_area A B))
        as [L|L]; [|lra].
      pose proof (div_no_nan_lt_1 _ _ U0 L) as C.
      unfold row_iou in E. lra. }
    unfold row_union_area in EI, U0.
    assert (P : 0 < row_intersect_area A B) by lra.
    destruct (proj1 (row_intersect_area_pos A B) P) as [Pw Ph].
    assert (E1 : row_intersect_area A B == row_b1_area A) by lra.
    assert (E2 : row_intersect_area A B == row_b2_area B) by lra.
    destruct (prod_full _ _ _ _ Pw Ph W1 H1 E1) as [Ew1 Eh1].
    destruct (prod_full _ _ _ _ Pw Ph W2 H2 E2) as [Ew2 Eh2].
    destruct (axis_full (row_b1_xmin A) (row_b1_xmax A) (row_b2_xmin B)
                (row_b2_xmax B)) as [X1 X2];
      try first [apply Qmin_le_Qmax | assumption].
    destruct (axis_full (row_b1_ymin A) (row_b1_ymax A) (row_b2_ymin B)
                (row_b2_ymax B)) as [Y1 Y2];
      try first [apply Qmin_le_Qmax | assumption].
    split; [repeat split; assumption | lra].
  - intros [S P]. destruct (row_same_extent_areas S) as (EI & E2 & _).
    unfold row_iou, row_union_area. rewrite EI, E2.
    setoid_replace (row_b1_area A + row_b1_area A - row_b1_area A)
      with (row_b1_area A) by ring.
    apply div_no_nan_self. lra.
Qed.

Lemma row_giou_one_iff :
  row_giou A B == 1 <-> same_extent A B /\ 0 < row_b1_area A.
Proof.
  rewrite <- row_iou_one_iff.
  pose proof (row_giou_le_iou A B). pose proof (row_iou_range A B).
  split.
  - intros E. lra.
  - intros E. rewrite <- E. apply row_giou_eq_iou.
    destruct (proj1 row_iou_one_iff E) as [S _].
    destruct (row_same_extent_areas S) as (EI & E2 & EE).
    unfold row_union_area. rewrite EE, EI, E2. ring.
Qed.

Lemma row_score_one_iff (mode : string) :
  row_score mode A B == 1 <-> same_extent A B /\ 0 < row_b1_area A.
Proof.
  unfold row_score. destruct (String.eqb mode "iou");
    [apply row_iou_one_iff | apply row_giou_one_iff].
Qed.
End RowOne.

(** ** Moving both boxes *)

Lemma map2_map_args {X Y X' Y' : Type} (f : X' -> Y' -> Q) (g : X -> X')
      (h : Y -> Y') (l1 : list X) (l2 : list Y) :
  map2 f (map g l1) (map h l2) = map2 (fun x y => f (g x) (h y)) l1 l2.
Proof.
  revert l2. induction l1 as [|x l1 IH]; intros [|y l2]; simpl; f_equal; auto.
Qed.

Lemma div_no_nan_scale (s x y : Q) :
  ~ s == 0 -> div_no_nan (s * x) (s * y) == div_no_nan x y.
Proof.
  intros Hs. destruct (Qeq_dec y 0) as [Z|NZ].
  - rewrite (div_no_nan_zero_den x y Z).
    rewrite div_no_nan_zero_den; [reflexivity | rewrite Z; ring].
  - assert (~ s * y == 0).
    { intros H. apply Qmult_integral in H. tauto. }
    rewrite !div_no_nan_nonzero_den by assumption. now field.
Qed.

Section AxisAffine.
Variables k t : Q.

Lemma Qmin_affine_pos (a c : Q) :
  0 < k -> Qmin (k * a + t) (k * c + t) == k * Qmin a c + t.
Proof. intros. minmax_cases; nra. Qed.

Lemma Qmax_affine_pos (a c : Q) :
  0 < k -> Qmax (k * a + t) (k * c + t) == k * Qmax a c + t.
Proof. intros. minmax_cases; nra. Qed.

Lemma Qmin_affine_neg (a c : Q) :
  k < 0 -> Qmin (k * a + t) (k * c + t) == k * Qmax a c + t.
Proof. intros. minmax_cases; nra. Qed.

Lemma Qmax_affine_neg (a c : Q) :
  k < 0 -> Qmax (k * a + t) (k * c + t) == k * Qmin a c + t.
Proof. intros. minmax_cases; nra. Qed.

Lemma extent_affine_pos (x y : Q) :
  0 < k -> Qmax zero (k * x + t - (k * y + t)) == k * Qmax zero (x - y).
Proof. intros. minmax_cases; nra. Qed.

Lemma extent_affine_neg (x y : Q) :
  k < 0 -> Qmax zero (k * y + t - (k * x + t)) == - k * Qmax zero (x - y).
Proof. intros. minmax_cases; nra. Qed.

Hypothesis k_nonzero : ~ k == 0.

Lemma width_affine (a c : Q) :
  Qmax zero (Qmax (k * a + t) (k * c + t) - Qmin (k * a + t) (k * c + t)) ==
  Qabs k * Qmax zero (Qmax a c - Qmin a c).
Proof.
  destruct (Q_dec k 0) as [[N|P]|Z]; [| |contradiction].
  - rewrite (Qabs_neg k) by lra.
    rewrite Qmax_affine_neg, Qmin_affine_neg by exact N.
    now apply extent_affine_neg.
  - rewrite (Qabs_pos k) by lra.
    rewrite Qmax_affine_pos, Qmin_affine_pos by exact P.
    now apply extent_affine_pos.
Qed.

Lemma intersect_affine (a c a' c' : Q) :
  Qmax zero
    (Qmin (Qmax (k * a + t) (k * c + t)) (Qmax (k * a' + t) (k * c' + t)) -
     Qmax (Qmin (k * a + t) (k * c + t)) (Qmin (k * a' + t) (k * c' + t))) ==
  Qabs k *
  Qmax zero (Qmin (Qmax a c) (Qmax a' c') - Qmax (Qmin a c) (Qmin a' c')).
Proof.
  destruct (Q_dec k 0) as [[N|P]|Z]; [| |contradiction].
  - rewrite (Qabs_neg k) by lra.
    repeat first [ rewrite Qmax_affine_neg by exact N
                 | rewrite Qmin_affine_neg by exact N ].
    now apply extent_affine_neg.
  - rewrite (Qabs_pos k) by lra.
    repeat first [ rewrite Qmax_affine_pos by exact P
                 | rewrite Qmin_affine_pos by exact P ].
    now apply extent_affine_pos.
Qed.

Lemma enclose_affine (a c a' c' : Q) :
  Qmax zero
    (Qmax (Qmax (k * a + t) (k * c + t)) (Qmax (k * a' + t) (k * c' + t)) -
     Qmin (Qmin (k * a + t) (k * c + t)) (Qmin (k * a' + t) (k * c' + t))) ==
  Qabs k *
  Qmax zero (Qmax (Qmax a c) (Qmax a' c') - Qmin (Qmin a c) (Qmin a' c')).
Proof.
  destruct (Q_dec k 0) as [[N|P]|Z]; [| |contradiction].
  - rewrite (Qabs_neg k) by lra.
    repeat first [ rewrite Qmax_affine_neg by exact N
                 | rewrite Qmin_affine_neg by exact N ].
    now apply extent_affine_neg.
  - rewrite (Qabs_pos k) by lra.
    repeat first [ rewrite Qmax_affine_pos by exact P
                 | rewrite Qmin_affine_pos by exact P ].
    now apply extent_affine_pos.
Qed.
End AxisAffine.

Lemma Qabs_nonzero (k : Q) : ~ k == 0 -> ~ Qabs k == 0.
Proof.
  intros Hk H. destruct (Q_dec k 0) as [[N|P]|Z]; [| |contradiction].
  - rewrite Qabs_neg in H by lra. lra.
  - rewrite Qabs_pos in H by lra. lra.
Qed.

Section RowAffine.
Variables ky ty kx tx : Q.
Hypothesis ky_nonzero : ~ ky == 0.
Hypothesis kx_nonzero : ~ kx == 0.
Variables A B : box.

Let A' := affine ky ty kx tx A.
Let B' := affine ky ty kx tx B.
Let s := Qabs kx * Qabs ky.

Lemma affine_factor_nonzero : ~ s == 0.
Proof.
  subst s. intros H. apply Qmult_integral in H.
  destruct H as [H|H]; revert H;
    [apply (Qabs_nonzero kx) | apply (Qabs_nonzero ky)]; assumption.
Qed.

Lemma row_b1_area_affine : row_b1_area A' == s * row_b1_area A.
Proof.
  subst s. unfold row_b1_area.
  assert (W : row_b1_width A' == Qabs kx * row_b1_width A)
    by (apply width_affine; assumption).
  assert (H : row_b1_height A' == Qabs ky * row_b1_height A)
    by (apply width_affine; assumption).
  rewrite W, H. ring.
Qed.

Lemma row_b2_area_affine : row_b2_area B' == s * row_b2_area B.
Proof.
  subst s. unfold row_b2_area.
  assert (W : row_b2_width B' == Qabs kx * row_b2_width B)
    by (apply width_affine; assumption).
  assert (H : row_b2_height B' == Qabs ky * row_b2_height B)
    by (apply width_affine; assumption).
  rewrite W, H. ring.
Qed.

Lemma row_intersect_area_affine :
  row_intersect_area A' B' == s * row_intersect_area A B.
Proof.
  subst s. unfold row_intersect_area.
  assert (W : row_intersect_width A' B' == Qabs kx * row_intersect_width A B)
    by (apply intersect_affine; assumption).
  assert (H : row_intersect_height A' B' ==
              Qabs ky * row_intersect_height A B)
    by (apply intersect_affine; assumption).
  rewrite W, H. ring.
Qed.

Lemma row_enclose_area_affine :
  row_enclose_area A' B' == s * row_enclose_area A B.
Proof.
  subst s. unfold row_enclose_area.
  assert (W : row_enclose_width A' B' == Qabs kx * row_enclose_width A B)
    by (apply enclose_affine; assumption).
  assert (H : row_enclose_height A' B' == Qabs ky * row_enclose_height A B)
    by (apply enclose_affine; assumption).
  rewrite W, H. ring.
Qed.

Lemma row_union_area_affine : row_union_area A' B' == s * row_union_area A B.
Proof.
  unfold row_union_area.
  rewrite row_b1_area_affine, row_b2_area_affine, row_intersect_area_affine.
  ring.
Qed.

Lemma row_iou_affine : row_iou A' B' == row_iou A B.
Proof.
  unfold row_iou.
  rewrite row_intersect_area_affine, row_union_area_affine.
  apply div_no_nan_scale, affine_factor_nonzero.
Qed.

Lemma row_giou_affine : row_giou A' B' == row_giou A B.
Proof.
  unfold row_giou, row_penalty.
  rewrite row_iou_affine, row_enclose_area_affine, row_union_area_affine.
  setoid_replace (s * row_enclose_area A B - s * row_union_area A B)
    with (s * (row_enclose_area A B - row_union_area A B)) by ring.
  rewrite (div_no_nan_scale _ _ _ affine_factor_nonzero). reflexivity.
Qed.

Lemma row_score_affine (mode : string) :
  row_score mode A' B' == row_score mode A B.
Proof.
  unfold row_score. destruct (String.eqb mode "iou");
    [apply row_iou_affine | apply row_giou_affine].
Qed.
End RowAffine.

Section RowTranspose.
Variables A B : box.

Lemma row_intersect_area_transpose :
  row_intersect_area (transpose A) (transpose B) == row_intersect_area A B.
Proof.
  change (row_intersect_height A B * row_intersect_width A B ==
          row_intersect_width A B * row_intersect_height A B).
  apply Qmult_comm.
Qed.

Lemma row_enclose_area_transpose :
  row_enclose_area (transpose A) (transpose B) == row_enclose_area A B.
Proof.
  change (row_enclose_height A B * row_enclose_width A B ==
          row_enclose_width A B * row_enclose_height A B).
  apply Qmult_comm.
Qed.

Lemma row_union_area_transpose :
  row_union_area (transpose A) (transpose B) == row_union_area A B.
Proof.
  unfold row_union_area. rewrite row_intersect_area_transpose.
  change (row_b1_area (transpose A)) with (row_b1_height A * row_b1_width A).
  change (row_b2_area (transpose B)) with (row_b2_height B * row_b2_width B).
  unfold row_b1_area, row_b2_area. ring.
Qed.

Lemma row_score_transpose (mode : string) :
  row_score mode (transpose A) (transpose B) == row_score mode A B.
Proof.
  unfold row_score, row_giou, row_penalty, row_iou.
  destruct (String.eqb mode "iou").
  - now rewrite row_intersect_area_transpose, row_union_area_transpose.
  - now rewrite row_intersect_area_transpose, row_union_area_transpose,
      row_enclose_area_transpose.
Qed.
End RowTranspose.

(** ** Properties of the scores, batch by batch *)

(** ** The properties below on floats

    X5 and X7 to X10 are properties of the exact formula.  On floats they
    hold up to rounding, overflow and underflow only; each fails on finite
    float32 inputs. *)

(** Scaling by 3, with every coordinate and its image a float32 integer,
    changes the iou score. *)
Lemma scaling_changes_iou_float32 :
  f_do_giou_calculate float32 [box32 1839 0 114 0 691 0 1811 0]
    [box32 1390 0 222 0 370 0 1321 0] "iou" =
    [S754_finite false 11202641 (-25)] /\
  f_do_giou_calculate float32 [box32 5517 0 342 0 2073 0 5433 0]
    [box32 4170 0 666 0 1110 0 3963 0] "iou" =
    [S754_finite false 11202640 (-25)].
Proof. split; vm_compute; reflexivity. Qed.

(** Two different rectangles with iou exactly 1. *)
Lemma different_boxes_iou_one_float32 :
  SFeqb (fl float32 1 0) (fl float32 8388609 (-23)) = false /\
  f_do_giou_calculate float32 [box32 0 0 0 0 1 0 1 0]
    [box32 0 0 0 0 1 0 8388609 (-23)] "iou" = [fl float32 1 0].
Proof. split; vm_compute; reflexivity. Qed.

(** The box of side 2^-40 lies in the box of side 2^40; they overlap, the
    quotient of the areas underflows and the iou score is 0. *)
Lemma overlapping_boxes_iou_zero_float32 :
  f_intersect_area float32 [box32 0 0 0 0 1 40 1 40]
    [box32 0 0 0 0 1 (-40) 1 (-40)] = [fl float32 1 (-80)] /\
  f_do_giou_calculate float32 [box32 0 0 0 0 1 40 1 40]
    [box32 0 0 0 0 1 (-40) 1 (-40)] "iou" = [f_zero].
Proof. split; vm_compute; reflexivity. Qed.

(** A box in another one, with a giou score above the iou score; and an
    enclosing area equal to the union area, both infinite, with giou = NaN
    and iou = 0. *)
Lemma nested_boxes_giou_not_iou_float32 :
  f_do_giou_calculate float32 [box32 0 0 0 0 1 0 8388609 (-23)]
    [box32 0 0 0 0 1 (-12) 1 (-12)] "giou" =
    [S754_finite false 12582910 (-46)] /\
  f_do_giou_calculate float32 [box32 0 0 0 0 1 0 8388609 (-23)]
    [box32 0 0 0 0 1 (-12) 1 (-12)] "iou" =
    [S754_finite false 16777212 (-48)] /\
  f_enclose_area float32 [box32 0 0 0 0 1 64 1 64] [box32 0 0 0 0 1 0 1 0] =
    f_union_area float32 [box32 0 0 0 0 1 64 1 64] [box32 0 0 0 0 1 0 1 0] /\
  f_do_giou_calculate float32 [box32 0 0 0 0 1 64 1 64]
    [box32 0 0 0 0 1 0 1 0] "giou" = [S754_nan] /\
  f_do_giou_calculate float32 [box32 0 0 0 0 1 64 1 64]
    [box32 0 0 0 0 1 0 1 0] "iou" = [f_zero].
Proof. repeat split; vm_compute; reflexivity. Qed.



(** X6. Exchanging the two axes of every box, (c1, c0, c3, c2) for
    (c0, c1, c2, c3), leaves every score and every loss the same number:
    the code treats the y and x coordinates alike. *)
Theorem transpose_invariance (b1 b2 : boxes) (mode : string) :
  tensor_eq
    (do_giou_calculate (map transpose b1) (map transpose b2) mode)
    (do_giou_calculate b1 b2 mode) /\
  result_eq (giou_loss (map transpose b2) (map transpose b1) mode)
            (giou_loss b2 b1 mode).
Proof.
  assert (S : tensor_eq
                (do_giou_calculate (map transpose b1) (map transpose b2) mode)
                (do_giou_calculate b1 b2 mode)).
  { rewrite !do_giou_calculate_rows, map2_map_args.
    apply Forall2_map2. intros A B. apply row_score_transpose. }
  split; [exact S | apply giou_loss_result_eq, S].
Qed.








(** ** The class and its configuration *)

Lemma dict_get_set_same (d : config) (k v : string) :
  dict_get (dict_set d k v) k = Some v.
Proof.
  induction d as [|[k' v'] d IH]; cbn.
  - now rewrite String.eqb_refl.
  - destruct (String.eqb k k') eqn:E; cbn; rewrite E; [reflexivity | exact IH].
Qed.

Lemma dict_get_set_other (d : config) (k k1 v : string) :
  k1 <> k -> dict_get (dict_set d k v) k1 = dict_get d k1.
Proof.
  intros N. induction d as [|[k' v'] d IH]; cbn.
  - apply String.eqb_neq in N. now rewrite N.
  - destruct (String.eqb k k') eqn:E; cbn.
    + apply String.eqb_eq in E. subst k'.
      apply String.eqb_neq in N. now rewrite N.
    + destruct (String.eqb k1 k'); [reflexivity | exact IH].
Qed.

Lemma dict_set_keys (d : config) (k v : string) :
  map fst (dict_set d k v) =
  if existsb (String.eqb k) (map fst d) then map fst d else map fst d ++ [k].
Proof.
  induction d as [|[k' v'] d IH]; cbn; [reflexivity|].
  destruct (String.eqb k k') eqn:E; cbn; [reflexivity|].
  rewrite IH. now destruct (existsb (String.eqb k) (map fst d)).
Qed.

Lemma dict_set_NoDup (d : config) (k v : string) :
  NoDup (map fst d) -> NoDup (map fst (dict_set d k v)).
Proof.
  intros ND. rewrite dict_set_keys.
  destruct (existsb (String.eqb k) (map fst d)) eqn:E; [exact ND|].
  apply NoDup_app; [exact ND | repeat constructor; intros [] |].
  intros k1 Hin [E1|[]]. subst k1.
  assert (X : existsb (String.eqb k) (map fst d) = true).
  { apply existsb_exists. exists k. split; [exact Hin|].
    apply String.eqb_refl. }
  congruence.
Qed.

(** X11. [get_config] binds the key 'mode' to the mode of the instance,
    also when the base configuration has this key already; it leaves the
    value of every other key as the base class gave it, keeps the keys in
    their order (adding 'mode' last when it is new) and bound once each,
    and a class built from the mode it holds has the mode of the
    instance. *)
Theorem get_config_mode (self : GIoULoss) (super_config : config) :
  dict_get (get_config self super_config) "mode" = Some (mode self) /\
  (forall k, k <> "mode"%string ->
     dict_get (get_config self super_config) k = dict_get super_config k) /\
  map fst (get_config self super_config) =
    (if existsb (String.eqb "mode") (map fst super_config)
     then map fst super_config
     else map fst super_config ++ ["mode"%string]) /\
  (NoDup (map fst super_config) ->
   NoDup (map fst (get_config self super_config))) /\
  forall reduction' name',
    mode (init (dict_get (get_config self super_config) "mode")
               reduction' name') = mode self.
Proof.
  unfold get_config. cbv zeta.
  split; [apply dict_get_set_same|].
  split; [intros k N; now apply dict_get_set_other|].
  split; [apply dict_set_keys|].
  split; [apply dict_set_NoDup|].
  intros r n. now rewrite dict_get_set_same.
Qed.

Lemma get_config_mode_witness :
  dict_get (get_config (init (Some "iou"%string) None None)
              [("reduction", "auto"); ("name", "giou_loss")]%string)
           "name" = Some "giou_loss"%string.
Proof.
  destruct (get_config_mode (init (Some "iou"%string) None None)
              [("reduction", "auto"); ("name", "giou_loss")]%string)
    as (_ & H & _).
  rewrite H; [reflexivity | discriminate].
Defined.
